(** * WIS Test Automation knowledge base: data layer and global search

    A shallow embedding of
    - the REST handlers of the edge function (the Hono application over
      the key-value store),
    - the folder handlers and save effects of [ProjectStructure], and
    - the snippet extraction and search effect of [GlobalSearch],
    together with the properties the specification states about them. *)

From stdpp Require Import gmap strings list fin_maps pretty.
From Stdlib Require Import Ascii.
From Stdlib Require Import Sorted.

Set Warnings "-register-all".
Set Default Proof Using "Type".

(** ** JSON values

    Everything the handlers read from a request body or from the store is
    a JSON value.  JavaScript's [undefined] (a missing property, a missing
    store key) is the [None] of [option json]. *)

Module Json.

Inductive json :=
| JNull
| JBool (b : bool)
| JNum (n : Z)
| JStr (s : string)
| JArr (l : list json)
| JObj (o : gmap string json).

(** Truthiness as [!v] and [v || d] see it: [undefined], [null], [false],
    [0] and the empty string are falsy, every array and object is truthy. *)
Definition truthy_json (v : json) : bool :=
  match v with
  | JNull => false
  | JBool b => b
  | JNum n => negb (n =? 0)%Z
  | JStr s => negb (String.eqb s "")
  | JArr _ | JObj _ => true
  end.

Definition truthy (v : option json) : bool :=
  match v with
  | Some x => truthy_json x
  | None => false
  end.

(** [v || d] *)
Definition js_or (v : option json) (d : json) : json :=
  match v with
  | Some x => if truthy_json x then x else d
  | None => d
  end.

(** A property of an object literal.  A property whose value is
    [undefined] does not survive serialisation ([c.json], [kv.set]), so it
    is not recorded. *)
Definition set_prop (k : string) (v : option json)
    (o : gmap string json) : gmap string json :=
  match v with
  | Some x => <[k := x]> o
  | None => o
  end.

Definition is_record (v : json) : Prop :=
  match v with JObj _ => True | _ => False end.

#[global] Instance is_record_dec v : Decision (is_record v).
Proof. destruct v; simpl; apply _. Defined.

End Json.
Export Json.

(** ** Exceptions

    Each handler body runs inside [try { ... } catch (error) { ... }].
    [Throw e] is a raised error, [e] standing for [String(error)]. *)

Inductive outcome (A : Type) :=
| Return (a : A)
| Throw (e : string).
Arguments Return {A} a.
Arguments Throw {A} e.

Definition bind {A B : Type} (m : outcome A) (f : A → outcome B) : outcome B :=
  match m with
  | Return a => f a
  | Throw e => Throw e
  end.

Notation "'do' x <- m ; k" := (bind m (λ x, k))
  (at level 10, x name, m at level 100, k at level 200,
   format "'[v' 'do'  x  <-  m ; '/' k ']'").

(** ** The edge function *)

Module Server.

Abbreviation store := (gmap string json).

(** Modelled from the spec: [kv_store.ts] is not part of the sources; the
    adapter exposes [get(key) -> JSON | undefined] and [set(key, value)]
    over string keys and is assumed reachable. *)
Definition kv_get (key : string) (s : store) : option json := s !! key.

(** Modelled from the spec: [set(key, value)] of the same adapter, a
    whole-value overwrite of one key. *)
Definition kv_set (key : string) (value : json) (s : store) : store :=
  <[key := value]> s.

Record response := Response { status : Z; payload : json }.

(** [c.json(obj)] and [c.json(obj, status)] *)
Definition c_json (o : gmap string json) : response := Response 200 (JObj o).
Definition c_json_status (o : gmap string json) (st : Z) : response :=
  Response st (JObj o).

Definition error_body (msg : string) : gmap string json :=
  {[ "error" := JStr msg ]}.

Definition failure_body (msg details : string) : gmap string json :=
  <["details" := JStr details]> {[ "error" := JStr msg ]}.

(** What a request brings from outside the handler's code: the value
    [crypto.randomUUID()] returns and the value
    [new Date().toISOString()] returns while it is served. *)
Record env := Env { randomUUID : string; now : string }.

Definition handler := store → response * store.

(** [try body catch (error) { return c.json({error, details}, 500) }]:
    nothing has been written when a handler throws, every [kv.set] being
    the last effect of its handler. *)
Definition try_catch (msg : string) (body : store → outcome (response * store))
    : handler := λ s,
  match body s with
  | Return r => r
  | Throw e => (c_json_status (failure_body msg e) 500, s)
  end.

(** Reading a property: [null.k] raises a TypeError, an object yields
    the stored property, any other JSON value has none of the properties
    the handlers read ([id], [name], [comments], ...). *)
Definition get_prop (v : json) (k : string) : outcome (option json) :=
  match v with
  | JNull => Throw "TypeError: Cannot read properties of null"
  | JObj o => Return (o !! k)
  | _ => Return None
  end.

(** [doc.id === id], [id] being the string of the route parameter. *)
Definition id_is (id : string) (v : option json) : bool :=
  match v with
  | Some (JStr s) => String.eqb s id
  | _ => false
  end.

Definition has_id (id : string) (doc : json) : outcome bool :=
  do v <- get_prop doc "id"; Return (id_is id v).

(** The array methods the handlers call on [kv.get(key) || []]: a value
    that is not an array has no such method. *)
Definition as_array (what : string) (v : json) : outcome (list json) :=
  match v with
  | JArr l => Return l
  | _ => Throw ("TypeError: " +:+ what +:+ " is not a function")
  end.

(** [l.filter((x) => x.id !== id)] *)
Fixpoint filter_out (id : string) (l : list json) : outcome (list json) :=
  match l with
  | [] => Return []
  | x :: l' =>
      do b <- has_id id x;
      do r <- filter_out id l';
      Return (if b then r else x :: r)
  end.

(** [l.findIndex((x) => x.id === id)], [None] for [-1]; [i] is the index
    of the head of [l]. *)
Fixpoint findIndex_from (i : nat) (id : string) (l : list json)
    : outcome (option nat) :=
  match l with
  | [] => Return None
  | x :: l' =>
      do b <- has_id id x;
      if b then Return (Some i) else findIndex_from (S i) id l'
  end.

Definition findIndex := findIndex_from 0.

(** [{...v}]: the own enumerable properties of [v]. *)
Definition indexed (l : list json) : gmap string json :=
  list_to_map (imap (λ (i : nat) (x : json), (pretty i, x)) l).

Definition spread (v : json) : gmap string json :=
  match v with
  | JObj o => o
  | JArr l => indexed l
  | JStr s => indexed ((λ c, JStr (String c EmptyString)) <$> String.list_ascii_of_string s)
  | _ => ∅
  end.

(** *** Documents *)

Definition documents_key : string := "wis-documents".

Definition get_documents : handler :=
  try_catch "Failed to fetch documents" (λ s,
    let documents := kv_get documents_key s in
    Return (c_json {[ "documents" := js_or documents (JArr []) ]}, s)).

Definition new_document (e : env)
    (name size type dataUrl uploadedAt category isFavorite : option json)
    : gmap string json :=
  set_prop "isFavorite" (Some (js_or isFavorite (JBool false)))
  (set_prop "category" (Some (js_or category (JStr "Uncategorized")))
  (set_prop "uploadedAt" (Some (js_or uploadedAt (JStr (now e))))
  (set_prop "dataUrl" dataUrl
  (set_prop "type" type
  (set_prop "size" size
  (set_prop "name" name
  (set_prop "id" (Some (JStr (randomUUID e))) ∅))))))).

Definition post_documents (e : env) (body : json) : handler :=
  try_catch "Failed to upload document" (λ s,
    do name <- get_prop body "name";
    do size <- get_prop body "size";
    do type <- get_prop body "type";
    do dataUrl <- get_prop body "dataUrl";
    do uploadedAt <- get_prop body "uploadedAt";
    do category <- get_prop body "category";
    do isFavorite <- get_prop body "isFavorite";
    if negb (truthy name) || negb (truthy dataUrl) then
      Return (c_json_status
                (error_body "Missing required fields: name and dataUrl") 400, s)
    else
      let documents := js_or (kv_get documents_key s) (JArr []) in
      let newDocument :=
        new_document e name size type dataUrl uploadedAt category isFavorite in
      do pushed <- as_array "documents.push" documents;
      let documents := JArr (pushed ++ [JObj newDocument]) in
      let s := kv_set documents_key documents s in
      Return (c_json (<["message" := JStr "Document uploaded successfully"]>
                        {[ "document" := JObj newDocument ]}), s)).

Definition delete_documents (id : string) : handler :=
  try_catch "Failed to delete document" (λ s,
    let documents := js_or (kv_get documents_key s) (JArr []) in
    do l <- as_array "documents.filter" documents;
    do filteredDocuments <- filter_out id l;
    if length filteredDocuments =? length l then
      Return (c_json_status (error_body "Document not found") 404, s)
    else
      let s := kv_set documents_key (JArr filteredDocuments) s in
      Return (c_json {[ "message" := JStr "Document deleted successfully" ]}, s)).

Definition put_documents (id : string) (body : json) : handler :=
  try_catch "Failed to update document" (λ s,
    let documents := js_or (kv_get documents_key s) (JArr []) in
    do l <- as_array "documents.findIndex" documents;
    do docIndex <- findIndex id l;
    match docIndex with
    | None => Return (c_json_status (error_body "Document not found") 404, s)
    | Some docIndex =>
        let old := default JNull (l !! docIndex) in
        let updated := JObj (<["id" := JStr id]> (spread body ∪ spread old)) in
        let l := <[docIndex := updated]> l in
        let s := kv_set documents_key (JArr l) s in
        Return (c_json (<["message" := JStr "Document updated successfully"]>
                          {[ "document" := updated ]}), s)
    end).

(** *** Project structure

    The two structure collections have the same pair of handlers, on the
    keys ["wis-ui-structure"] and ["wis-api-structure"]. *)

Inductive repo := UI | API.

#[global] Instance repo_eq_dec : EqDecision repo.
Proof. solve_decision. Defined.

Definition structure_key (r : repo) : string :=
  match r with
  | UI => "wis-ui-structure"
  | API => "wis-api-structure"
  end.

Definition repo_label (r : repo) : string :=
  match r with
  | UI => "UI"
  | API => "API"
  end.

Definition get_structure (r : repo) : handler :=
  try_catch ("Failed to fetch " +:+ repo_label r +:+ " structure") (λ s,
    let structure := kv_get (structure_key r) s in
    Return (c_json {[ "structure" := js_or structure (JArr []) ]}, s)).

Definition post_structure (r : repo) (body : json) : handler :=
  try_catch ("Failed to update " +:+ repo_label r +:+ " structure") (λ s,
    do structure <- get_prop body "structure";
    match structure with
    | Some v =>
        if truthy_json v then
          let s := kv_set (structure_key r) v s in
          Return (c_json {[ "message" :=
                    JStr (repo_label r +:+ " structure updated successfully") ]}, s)
        else
          Return (c_json_status
                    (error_body "Missing required field: structure") 400, s)
    | None =>
        Return (c_json_status
                  (error_body "Missing required field: structure") 400, s)
    end).

(** *** Community *)

Definition posts_key : string := "wis-community-posts".

Definition get_posts : handler :=
  try_catch "Failed to fetch community posts" (λ s,
    let posts := kv_get posts_key s in
    Return (c_json {[ "posts" := js_or posts (JArr []) ]}, s)).

Definition new_post (e : env) (name message attachments : option json)
    : gmap string json :=
  set_prop "comments" (Some (JArr []))
  (set_prop "attachments" (Some (js_or attachments (JArr [])))
  (set_prop "timestamp" (Some (JStr (now e)))
  (set_prop "message" message
  (set_prop "name" name
  (set_prop "id" (Some (JStr (randomUUID e))) ∅))))).

Definition post_posts (e : env) (body : json) : handler :=
  try_catch "Failed to create post" (λ s,
    do name <- get_prop body "name";
    do message <- get_prop body "message";
    do attachments <- get_prop body "attachments";
    if negb (truthy name) || negb (truthy message) then
      Return (c_json_status
                (error_body "Missing required fields: name and message") 400, s)
    else
      let posts := js_or (kv_get posts_key s) (JArr []) in
      let newPost := new_post e name message attachments in
      do pushed <- as_array "posts.push" posts;
      let s := kv_set posts_key (JArr (pushed ++ [JObj newPost])) s in
      Return (c_json (<["message" := JStr "Post created successfully"]>
                        {[ "post" := JObj newPost ]}), s)).

Definition new_comment (e : env) (name message attachments : option json)
    : gmap string json :=
  set_prop "attachments" (Some (js_or attachments (JArr [])))
  (set_prop "timestamp" (Some (JStr (now e)))
  (set_prop "message" message
  (set_prop "name" name
  (set_prop "id" (Some (JStr (randomUUID e))) ∅)))).

(** [post.comments.push(c)]: the post found by [findIndex] is an object;
    its [comments] must be an array. *)
Definition push_comment (post : json) (c : json) : outcome json :=
  do comments <- get_prop post "comments";
  match post, comments with
  | JObj o, Some (JArr cs) => Return (JObj (<["comments" := JArr (cs ++ [c])]> o))
  | _, _ => Throw "TypeError: Cannot read properties of undefined (reading 'push')"
  end.

Definition post_comments (e : env) (postId : string) (body : json) : handler :=
  try_catch "Failed to add comment" (λ s,
    do name <- get_prop body "name";
    do message <- get_prop body "message";
    do attachments <- get_prop body "attachments";
    if negb (truthy name) || negb (truthy message) then
      Return (c_json_status
                (error_body "Missing required fields: name and message") 400, s)
    else
      let posts := js_or (kv_get posts_key s) (JArr []) in
      do l <- as_array "posts.findIndex" posts;
      do postIndex <- findIndex postId l;
      match postIndex with
      | None => Return (c_json_status (error_body "Post not found") 404, s)
      | Some postIndex =>
          let newComment := new_comment e name message attachments in
          do post <- push_comment (default JNull (l !! postIndex)) (JObj newComment);
          let s := kv_set posts_key (JArr (<[postIndex := post]> l)) s in
          Return (c_json (<["message" := JStr "Comment added successfully"]>
                            {[ "comment" := JObj newComment ]}), s)
      end).

Definition delete_posts (postId : string) : handler :=
  try_catch "Failed to delete post" (λ s,
    let posts := js_or (kv_get posts_key s) (JArr []) in
    do l <- as_array "posts.filter" posts;
    do filteredPosts <- filter_out postId l;
    if length filteredPosts =? length l then
      Return (c_json_status (error_body "Post not found") 404, s)
    else
      let s := kv_set posts_key (JArr filteredPosts) s in
      Return (c_json {[ "message" := JStr "Post deleted successfully" ]}, s)).

(** The collection a handler sees through [kv.get(key) || []]: the stored
    array, or the empty one when the key is unset or holds a falsy value. *)
Definition collection (key : string) (s : store) : option (list json) :=
  match js_or (kv_get key s) (JArr []) with
  | JArr l => Some l
  | _ => None
  end.

(** *** Vocabulary of the properties *)

(** The store holds nothing, or [null], under a key. *)
Definition unset (key : string) (s : store) : Prop :=
  kv_get key s = None ∨ kv_get key s = Some JNull.

(** No record of [l] has the id [id]. *)
Definition no_such_id (id : string) (l : list json) : Prop :=
  ∀ o, JObj o ∈ l → o !! "id" ≠ Some (JStr id).

(** The number of listed values that carry the id [id]. *)
Definition occurrences (id : string) (l : list json) : nat :=
  length (List.filter (λ x, match x with
                            | JObj o => id_is id (o !! "id")
                            | _ => false
                            end) l).

(** *** The routes

    The requests the application answers, and the handler of each. *)

Inductive call :=
| GET_health
| GET_documents
| POST_documents (body : json)
| DELETE_documents (id : string)
| PUT_documents (id : string) (body : json)
| GET_structure (r : repo)
| POST_structure (r : repo) (body : json)
| GET_posts
| POST_posts (body : json)
| POST_comments (postId : string) (body : json)
| DELETE_posts (postId : string).

Definition get_health : handler := λ s,
  (c_json {[ "status" := JStr "ok" ]}, s).

Definition app (e : env) (c : call) : handler :=
  match c with
  | GET_health => get_health
  | GET_documents => get_documents
  | POST_documents body => post_documents e body
  | DELETE_documents id => delete_documents id
  | PUT_documents id body => put_documents id body
  | GET_structure r => get_structure r
  | POST_structure r body => post_structure r body
  | GET_posts => get_posts
  | POST_posts body => post_posts e body
  | POST_comments postId body => post_comments e postId body
  | DELETE_posts postId => delete_posts postId
  end.

(** The store key a route works on. *)
Definition key_of (c : call) : option string :=
  match c with
  | GET_health => None
  | GET_documents | POST_documents _ | DELETE_documents _ | PUT_documents _ _ =>
      Some documents_key
  | GET_structure r | POST_structure r _ => Some (structure_key r)
  | GET_posts | POST_posts _ | POST_comments _ _ | DELETE_posts _ =>
      Some posts_key
  end.

(** The record [x] has the id [id]. *)
Definition carries_id (id : string) (x : json) : bool :=
  match x with
  | JObj o => id_is id (o !! "id")
  | _ => false
  end.

(** The records of [l] that do not have the id [id], in their order. *)
Definition without_id (id : string) (l : list json) : list json :=
  List.filter (λ x, negb (carries_id id x)) l.

(** The statuses the handlers answer with. *)
Definition known_status (r : response) : Prop :=
  status r = 200%Z ∨ status r = 400%Z ∨ status r = 404%Z ∨ status r = 500%Z.

(** A handler that leaves the store as it is, or answers 200 and
    overwrites the one key [key]. *)
Definition writes_only (key : option string) (h : handler) : Prop :=
  ∀ s, known_status (h s).1 ∧
       ((h s).2 = s ∨
        status (h s).1 = 200%Z ∧ ∃ k v, key = Some k ∧ (h s).2 = <[k := v]> s).

End Server.

(** ** JavaScript arrays

    Reading past the end of an array yields [undefined]; writing past the
    end extends the array, the cells in between being holes.  A cell is
    an [option], [None] for [undefined] or a hole. *)

Module JsArray.

Definition read {A} (l : list (option A)) (i : nat) : option A :=
  mjoin (l !! i).

Definition write {A} (l : list (option A)) (i : nat) (v : option A)
    : list (option A) :=
  if decide (i < length l) then <[i := v]> l
  else l ++ replicate (i - length l) None ++ [v].

(** An array without [undefined] cells, as a list of its elements. *)
Definition dense {A} (l : list (option A)) : option (list A) :=
  mapM (λ c, c) l.

End JsArray.

(** ** The project structure page *)

Module Structure.
Import Server.

Record FileAttachment := {
  fa_id : string;
  fa_name : string;
  fa_size : Z;
  fa_uploadedAt : Z;
  fa_data : string;
}.

Record FolderInfo := {
  f_id : string;
  f_name : string;
  f_purpose : string;
  f_description : string;
  f_attachments : option (list FileAttachment);
}.

Abbreviation RepoStructure := (list FolderInfo).

Inductive direction := up | down.

Record state := {
  activeRepo : repo;
  uiFolders : RepoStructure;
  apiFolders : RepoStructure;
  expandedFolder : option string;
  editingFolder : option string;
  editData : option FolderInfo;
}.

Definition currentFolders (st : state) : RepoStructure :=
  match activeRepo st with
  | UI => uiFolders st
  | API => apiFolders st
  end.

Definition folders (r : repo) (st : state) : RepoStructure :=
  match r with
  | UI => uiFolders st
  | API => apiFolders st
  end.

(** [setCurrentFolders(v)]: [setUIFolders] or [setAPIFolders], by the
    active repo. *)
Definition setCurrentFolders (v : RepoStructure) (st : state) : state :=
  match activeRepo st with
  | UI => {| activeRepo := activeRepo st; uiFolders := v;
             apiFolders := apiFolders st; expandedFolder := expandedFolder st;
             editingFolder := editingFolder st; editData := editData st |}
  | API => {| activeRepo := activeRepo st; uiFolders := uiFolders st;
              apiFolders := v; expandedFolder := expandedFolder st;
              editingFolder := editingFolder st; editData := editData st |}
  end.

Definition setExpandedFolder (v : option string) (st : state) : state :=
  {| activeRepo := activeRepo st; uiFolders := uiFolders st;
     apiFolders := apiFolders st; expandedFolder := v;
     editingFolder := editingFolder st; editData := editData st |}.

Definition setEditing (name : option string) (data : option FolderInfo)
    (st : state) : state :=
  {| activeRepo := activeRepo st; uiFolders := uiFolders st;
     apiFolders := apiFolders st; expandedFolder := expandedFolder st;
     editingFolder := name; editData := data |}.

(** What a handler leaves behind: the next state and, when it called
    [setCurrentFolders] (always with a freshly built array), the repo
    whose array was replaced; the save effect of that repo then runs. *)
Definition update := (state * option repo)%type.

Definition handleEdit (folderName : string) (st : state) : update :=
  (setEditing (Some folderName)
     (find (λ folder, bool_decide (f_name folder = folderName))
           (currentFolders st)) st, None).

(** [editingFolder && editData]: an empty folder name is falsy. *)
Definition handleSave (st : state) : update :=
  match editingFolder st, editData st with
  | Some editing, Some data =>
      if String.eqb editing "" then (st, None)
      else
        let st' := setCurrentFolders
          ((λ folder, if bool_decide (f_name folder = editing)
                      then data else folder) <$> currentFolders st) st in
        (setEditing None None st', Some (activeRepo st))
  | _, _ => (st, None)
  end.

(** [dateNow] is the value of [Date.now()]. *)
Definition handleAddFolder (dateNow : nat) (st : state) : update :=
  let newFolder := {| f_id := "newFolder" +:+ pretty dateNow;
                      f_name := "New Folder"; f_purpose := "";
                      f_description := ""; f_attachments := None |} in
  (setCurrentFolders (currentFolders st ++ [newFolder]) st,
   Some (activeRepo st)).

Definition handleDeleteFolder (folderName : string) (st : state) : update :=
  let st' := setCurrentFolders
    (filter (λ folder, f_name folder ≠ folderName) (currentFolders st)) st in
  (if bool_decide (expandedFolder st = Some folderName)
   then setExpandedFolder None st' else st',
   Some (activeRepo st)).

(** [moveFolder(index, direction)] on the array [currentFolders]:
    [None] when [setCurrentFolders] is not called, otherwise the array
    handed to it. *)
Definition moveFolder (currentFolders : RepoStructure) (index : nat)
    (d : direction) : option (list (option FolderInfo)) :=
  let newFolders := Some <$> currentFolders in
  let targetIndex : Z :=
    match d with
    | up => (Z.of_nat index - 1)%Z
    | down => (Z.of_nat index + 1)%Z
    end in
  if bool_decide (0 ≤ targetIndex)%Z
     && bool_decide (targetIndex < Z.of_nat (length newFolders))%Z then
    let t := Z.to_nat targetIndex in
    let atTarget := JsArray.read newFolders t in
    let atIndex := JsArray.read newFolders index in
    Some (JsArray.write (JsArray.write newFolders index atTarget) t atIndex)
  else None.

(** The folder array of the page after [moveFolder(index, direction)]. *)
Definition after_move (s : RepoStructure) (index : nat) (d : direction)
    : list (option FolderInfo) :=
  match moveFolder s index d with
  | Some newFolders => newFolders
  | None => Some <$> s
  end.

(** *** Saving

    [JSON.stringify({ structure })] of the request body. *)
Definition attachment_json (a : FileAttachment) : json :=
  JObj (<["data" := JStr (fa_data a)]>
       (<["uploadedAt" := JNum (fa_uploadedAt a)]>
       (<["size" := JNum (fa_size a)]>
       (<["name" := JStr (fa_name a)]>
       {[ "id" := JStr (fa_id a) ]})))).

Definition folder_json (f : FolderInfo) : json :=
  JObj (set_prop "attachments"
          ((λ l, JArr (attachment_json <$> l)) <$> f_attachments f)
       (<["description" := JStr (f_description f)]>
       (<["purpose" := JStr (f_purpose f)]>
       (<["name" := JStr (f_name f)]>
       {[ "id" := JStr (f_id f) ]})))).

Definition structure_json (l : RepoStructure) : json :=
  JArr (folder_json <$> l).

(** [structureAPI.updateUI] and [structureAPI.updateAPI]: one POST to
    the structure endpoint of the repo. *)
Inductive request := PostStructure (r : repo) (body : json).

Definition update_structure (r : repo) (structure : RepoStructure) : request :=
  PostStructure r (JObj {[ "structure" := structure_json structure ]}).

(** The save effect of one repo, run after a render in which its array
    was replaced. *)
Definition save_effect (r : repo) (st : state) : list request :=
  if 0 <? length (folders r st) then [update_structure r (folders r st)]
  else [].

Definition serve (q : request) (s : store) : store :=
  match q with
  | PostStructure r body => (post_structure r body s).2
  end.

(** The clicks of the page that reach a folder handler.  The arrows of
    a row exist for the indices of [currentFolders] only, and the down
    arrow calls [moveFolder] only below the last row; the delete dialog
    calls [handleDeleteFolder] for a truthy folder name only. *)
Inductive action :=
| ClickEdit (folderName : string)
| ChangeEditData (data : FolderInfo)
| ClickSave
| ClickAddFolder (dateNow : nat)
| ConfirmDelete (folderName : string)
| ClickUp (index : nat)
| ClickDown (index : nat)
| SelectRepo (r : repo).

Definition moved (index : nat) (d : direction) (st : state) : option update :=
  match moveFolder (currentFolders st) index d with
  | None => Some (st, None)
  | Some newFolders =>
      l ← JsArray.dense newFolders;
      Some (setCurrentFolders l st, Some (activeRepo st))
  end.

(** [None]: the page offers no such click in this state. *)
Definition handle (a : action) (st : state) : option update :=
  match a with
  | ClickEdit folderName => Some (handleEdit folderName st)
  | ChangeEditData data =>
      match editData st with
      | Some _ => Some (setEditing (editingFolder st) (Some data) st, None)
      | None => None
      end
  | ClickSave => Some (handleSave st)
  | ClickAddFolder dateNow => Some (handleAddFolder dateNow st)
  | ConfirmDelete folderName =>
      if String.eqb folderName "" then Some (st, None)
      else Some (handleDeleteFolder folderName st)
  | ClickUp index =>
      if decide (index < length (currentFolders st)) then moved index up st
      else None
  | ClickDown index =>
      if decide (index < length (currentFolders st)) then
        if bool_decide (Z.of_nat index < Z.of_nat (length (currentFolders st)) - 1)%Z
        then moved index down st else Some (st, None)
      else None
  | SelectRepo r =>
      Some ({| activeRepo := r; uiFolders := uiFolders st;
               apiFolders := apiFolders st; expandedFolder := None;
               editingFolder := None; editData := editData st |}, None)
  end.

(** One click, the effects of the render that follows it, and the
    requests they send, served in order. *)
Definition click (a : action) (w : state * store) : option (state * store) :=
  '(st', touched) ← handle a w.1;
  let requests :=
    match touched with
    | Some r => save_effect r st'
    | None => []
    end in
  Some (st', foldl (λ s q, serve q s) w.2 requests).

(** *** Vocabulary of the properties *)

(** The clicks that add, edit, delete or reorder a folder of the active
    repo: the add button, the save button while a folder is being
    edited, the confirmation of a delete, and an arrow that has a
    neighbour to swap with. *)
Definition mutates (act : action) (st : state) : Prop :=
  match act with
  | ClickAddFolder _ => True
  | ClickSave =>
      ∃ editing data, editingFolder st = Some editing ∧ editing ≠ ""
                      ∧ editData st = Some data
  | ConfirmDelete folderName => folderName ≠ ""
  | ClickUp index => 0 < index ∧ index < length (currentFolders st)
  | ClickDown index => index + 1 < length (currentFolders st)
  | _ => False
  end.

(** A folder and a page for the examples. *)
Definition sample_folder (name : string) : FolderInfo :=
  {| f_id := name; f_name := name; f_purpose := ""; f_description := "";
     f_attachments := None |}.

Definition sample_page (ui : list FolderInfo) : state :=
  {| activeRepo := UI; uiFolders := ui; apiFolders := [sample_folder "Tests"];
     expandedFolder := None; editingFolder := None; editData := None |}.

End Structure.

(** ** Global search

    A JavaScript string is the list of its code units.  The model covers
    the units U+0000 to U+00FF (Latin-1), one [ascii] each; on them
    [toLowerCase] acts unit by unit. *)

Module Search.
Import Server.

Abbreviation text := (list ascii).

Definition txt (s : string) : text := String.list_ascii_of_string s.

Definition lower_unit (c : ascii) : ascii :=
  let n := nat_of_ascii c in
  if (65 <=? n) && (n <=? 90)
     || (192 <=? n) && (n <=? 222) && negb (n =? 215)
  then ascii_of_nat (n + 32) else c.

Definition toLowerCase (s : text) : text := lower_unit <$> s.

(** [s.startsWith(q)] *)
Fixpoint startsWith (s q : text) {struct q} : bool :=
  match q, s with
  | [], _ => true
  | _ :: _, [] => false
  | a :: q', b :: s' => bool_decide (a = b) && startsWith s' q'
  end.

(** The first position of [s] at which [q] starts, counted from [k]. *)
Fixpoint scan (q s : text) (k : nat) : option nat :=
  if startsWith s q then Some k
  else match s with
       | [] => None
       | _ :: s' => scan q s' (S k)
       end.

(** [s.indexOf(q, position)], [None] for [-1]. *)
Definition indexOf (s q : text) (position : nat) : option nat :=
  let start := position `min` length s in
  scan q (drop start s) start.

(** [s.includes(q)] *)
Definition includes (s q : text) : bool :=
  bool_decide (is_Some (indexOf s q 0)).

(** [s.substring(a, b)]: both ends are clamped to the length and swapped
    when out of order. *)
Definition substring (s : text) (a b : nat) : text :=
  let a := a `min` length s in
  let b := b `min` length s in
  take (a `max` b - a `min` b) (drop (a `min` b) s).

(** [s.substring(a)] *)
Definition substring_from (s : text) (a : nat) : text :=
  substring s a (length s).

(** White space of [trim] among the Latin-1 units: TAB, LF, VT, FF, CR,
    SP and NBSP. *)
Definition is_white (c : ascii) : bool :=
  let n := nat_of_ascii c in
  (9 <=? n) && (n <=? 13) || (n =? 32) || (n =? 160).

Fixpoint trimStart (s : text) : text :=
  match s with
  | c :: s' => if is_white c then trimStart s' else s
  | [] => []
  end.

Definition trim (s : text) : text :=
  reverse (trimStart (reverse (trimStart s))).

(** [a || b] on strings: the empty string is falsy. *)
Definition or_text (a b : text) : text :=
  match a with
  | [] => b
  | _ => a
  end.

Definition nonempty (a : text) : bool :=
  match a with
  | [] => false
  | _ => true
  end.

Definition ellipsis : text := txt "...".

(** What [getHighlightedSnippet] returns: a plain string, or a fragment
    of strings and highlight spans, the span built while [currentIndex]
    was [k] carrying the key [highlight-k]. *)
Inductive part :=
| Plain (s : text)
| Mark (key : nat) (s : text).

Inductive node :=
| Text (s : text)
| Fragment (parts : list part).

(** The [while (searchIndex !== -1)] loop, from the state
    ([parts], [currentIndex], [searchIndex]); [fuel] bounds the number of
    iterations and [None] says that the loop has not ended within it. *)
Fixpoint highlight (fuel : nat) (snippet snippetLower lowerSearch : text)
    (searchLength : nat) (parts : list part) (currentIndex : nat)
    (searchIndex : option nat) : option (list part * nat) :=
  match searchIndex with
  | None => Some (parts, currentIndex)
  | Some searchIndex =>
      match fuel with
      | 0 => None
      | S fuel =>
          let parts :=
            if currentIndex <? searchIndex
            then parts ++ [Plain (substring snippet currentIndex searchIndex)]
            else parts in
          let parts :=
            parts ++ [Mark currentIndex
                        (substring snippet searchIndex
                                   (searchIndex + searchLength))] in
          let currentIndex := searchIndex + searchLength in
          highlight fuel snippet snippetLower lowerSearch searchLength parts
            currentIndex (indexOf snippetLower lowerSearch currentIndex)
      end
  end.

(** [Math.max(0, index - 30)] is the truncated subtraction of [nat]. *)
Definition getHighlightedSnippet (fuel : nat) (text searchTerm : text)
    (maxLength : nat) : option node :=
  let lowerText := toLowerCase text in
  let lowerSearch := toLowerCase searchTerm in
  match indexOf lowerText lowerSearch 0 with
  | None =>
      Some (Text (substring text 0 maxLength
                  ++ if maxLength <? length text then ellipsis else []))
  | Some index =>
      let snippetStart := index - 30 in
      let snippetEnd := length text `min` (index + length searchTerm + 70) in
      let snippet := substring text snippetStart snippetEnd in
      let snippet := if 0 <? snippetStart then ellipsis ++ snippet else snippet in
      let snippet :=
        if snippetEnd <? length text then snippet ++ ellipsis else snippet in
      let snippetLower := toLowerCase snippet in
      '(parts, currentIndex) ←
        highlight fuel snippet snippetLower lowerSearch (length searchTerm)
                  [] 0 (indexOf snippetLower lowerSearch 0);
      let parts :=
        if currentIndex <? length snippet
        then parts ++ [Plain (substring_from snippet currentIndex)]
        else parts in
      Some (Fragment parts)
  end.

(** *** The snapshot

    The props of [GlobalSearch] are untyped arrays; the records hold the
    properties the search effect reads.  The properties it reads through
    [?.] may be missing. *)

Record Folder := {
  folder_name : text;
  folder_purpose : text;
  folder_description : text;
}.

Record Document := {
  doc_name : text;
  doc_uploadedAt : text;
}.

Record Comment := {
  comment_name : option text;
  comment_message : option text;
}.

Record Discussion := {
  disc_id : text;
  disc_name : option text;
  disc_message : option text;
  disc_comments : option (list Comment);
}.

Record Snapshot := {
  uiFolders : list Folder;
  apiFolders : list Folder;
  documents : list Document;
  discussions : list Discussion;
}.

Inductive result_type := folder | document | discussion.

(** [onClick]: the page to navigate to and what to select there. *)
Inductive navigation :=
| ToFolder (r : repo) (folderName : text)
| ToDocuments
| ToPost (postId : text).

Record SearchResult := {
  type : result_type;
  title : text;
  description : text;
  highlightedSnippet : option node;
  result_repo : option repo;
  onClick : navigation;
}.

(** [arr.forEach(f)] for an [f] that pushes to [foundResults]; [None]
    when a call of [f] does not return. *)
Fixpoint forEach {A B} (f : B → A → option B) (l : list A) (acc : B)
    : option B :=
  match l with
  | [] => Some acc
  | x :: l' => acc ← f acc x; forEach f l' acc
  end.

(** [s?.toLowerCase().includes(q)], falsy for a missing [s]. *)
Definition opt_includes (s : option text) (searchLower : text) : bool :=
  match s with
  | Some s => includes (toLowerCase s) searchLower
  | None => false
  end.

(** [${s}] inside a template literal *)
Definition interpolate (s : option text) : text :=
  default (txt "undefined") s.

(** The snippet of a result.  The loop of [getHighlightedSnippet] passes
    over at least one unit of the snippet in each iteration when the
    search term is not empty, and the snippet is at most six units longer
    than the text. *)
Definition snippet_fuel (matchedText : text) : nat := length matchedText + 7.

Definition snippet_of (matchedText searchTerm : text) : option (option node) :=
  if nonempty matchedText
  then Some <$> getHighlightedSnippet (snippet_fuel matchedText)
                  matchedText searchTerm 100
  else Some None.

Definition folder_default (r : repo) : text :=
  match r with
  | UI => txt "UI Test Automation Folder"
  | API => txt "API Test Automation Folder"
  end.

(** The body of [uiFolders.forEach] ([r = UI]) and of
    [apiFolders.forEach] ([r = API]). *)
Definition searchFolder (r : repo) (searchTerm : text)
    (foundResults : list SearchResult) (f : Folder)
    : option (list SearchResult) :=
  let searchLower := toLowerCase searchTerm in
  let matchedText :=
    if includes (toLowerCase (folder_name f)) searchLower then
      or_text (folder_description f) (or_text (folder_purpose f) [])
    else if includes (toLowerCase (folder_purpose f)) searchLower then
      folder_purpose f
    else if includes (toLowerCase (folder_description f)) searchLower then
      folder_description f
    else [] in
  if nonempty matchedText
     || includes (toLowerCase (folder_name f)) searchLower then
    highlightedSnippet ← snippet_of matchedText searchTerm;
    Some (foundResults ++ [
      {| type := folder;
         title := folder_name f;
         description := or_text (folder_purpose f) (folder_default r);
         highlightedSnippet := highlightedSnippet;
         result_repo := Some r;
         onClick := ToFolder r (folder_name f) |} ])
  else Some foundResults.

Section documents.

(** [new Date(uploadedAt).toLocaleDateString()], which depends on the
    locale and the time zone of the browser. *)
Variable toLocaleDateString : text → text.

Definition searchDocument (searchTerm : text)
    (foundResults : list SearchResult) (doc : Document)
    : option (list SearchResult) :=
  let searchLower := toLowerCase searchTerm in
  if includes (toLowerCase (doc_name doc)) searchLower then
    Some (foundResults ++ [
      {| type := document;
         title := doc_name doc;
         description := txt "Uploaded " ++ toLocaleDateString (doc_uploadedAt doc);
         highlightedSnippet := None;
         result_repo := None;
         onClick := ToDocuments |} ])
  else Some foundResults.

End documents.

(** [discussion.comments?.length || 0], as the template literal prints it *)
Definition comment_count (d : Discussion) : text :=
  txt (pretty (length (default [] (disc_comments d)))).

(** U+2022, kept as the bytes of the literal: a description is displayed
    and never searched. *)
Definition bullet : text := txt "•".

(** The [for (const comment of discussion.comments)] loop, on the pair
    ([matchedText], [matchReason]). *)
Fixpoint scanComments (searchLower : text) (comments : list Comment)
    (found : text * text) : text * text :=
  match comments with
  | [] => found
  | comment :: rest =>
      if opt_includes (comment_message comment) searchLower then
        (default [] (comment_message comment),
         txt "In comment by " ++ interpolate (comment_name comment))
      else if opt_includes (comment_name comment) searchLower then
        (or_text (default [] (comment_message comment))
                 (txt "Comment by " ++ interpolate (comment_name comment)),
         txt "Comment author: " ++ interpolate (comment_name comment))
      else scanComments searchLower rest found
  end.

(** The body of [discussions.forEach]. *)
Definition searchDiscussion (searchTerm : text)
    (foundResults : list SearchResult) (d : Discussion)
    : option (list SearchResult) :=
  let searchLower := toLowerCase searchTerm in
  let titleMatches := opt_includes (disc_name d) searchLower in
  let found : text * text :=
    if opt_includes (disc_message d) searchLower then
      (default [] (disc_message d),
       txt "In post " ++ bullet ++ txt " " ++ comment_count d ++ txt " comments")
    else ([], []) in
  let found :=
    match disc_comments d with
    | Some comments =>
        if nonempty found.1 then found
        else scanComments searchLower comments found
    | None => found
    end in
  let matchedText := found.1 in
  if titleMatches || nonempty matchedText then
    highlightedSnippet ← snippet_of matchedText searchTerm;
    let matchReason :=
      if nonempty matchedText then found.2
      else if titleMatches then comment_count d ++ txt " comments"
      else found.2 in
    Some (foundResults ++ [
      {| type := discussion;
         title := or_text (default [] (disc_name d)) (txt "Untitled");
         description := matchReason;
         highlightedSnippet := highlightedSnippet;
         result_repo := None;
         onClick := ToPost (disc_id d) |} ])
  else Some foundResults.

Section search.

Variable toLocaleDateString : text → text.

(** The search effect: the value handed to [setResults]. *)
Definition search (searchTerm : text) (snap : Snapshot)
    : option (list SearchResult) :=
  match trim searchTerm with
  | [] => Some []
  | _ =>
      foundResults ← forEach (searchFolder UI searchTerm) (uiFolders snap) [];
      foundResults ←
        forEach (searchFolder API searchTerm) (apiFolders snap) foundResults;
      foundResults ←
        forEach (searchDocument toLocaleDateString searchTerm)
                (documents snap) foundResults;
      foundResults ←
        forEach (searchDiscussion searchTerm) (discussions snap) foundResults;
      Some (take 10 foundResults)
  end.

End search.

(** *** Vocabulary of the properties *)

(** [q] occurs in [s] at index [i], case-insensitively. *)
Definition occurs_at (q s : text) (i : nat) : Prop :=
  ∃ pre mid post,
    s = pre ++ mid ++ post ∧ length pre = i ∧ toLowerCase mid = toLowerCase q.

Definition first_occurrence (q s : text) (i : nat) : Prop :=
  occurs_at q s i ∧ ∀ j, j < i → ¬ occurs_at q s j.

Definition absent (q s : text) : Prop := ∀ i, ¬ occurs_at q s i.

(** The string a fragment displays. *)
Definition part_text (p : part) : text :=
  match p with
  | Plain s => s
  | Mark _ s => s
  end.

Definition displayed (parts : list part) : text :=
  concat (part_text <$> parts).

Definition plain (s : text) : list part :=
  if nonempty s then [Plain s] else [].

(** [scanned q k s parts]: [parts] cuts [s] at the occurrences of [q],
    taken from left to right and skipping those that overlap an earlier
    one.  Either [q] does not occur in [s], which is then one plain
    string (none when [s] is empty); or [s] is [p ++ m ++ rest], where
    the first occurrence of [q] in [s] starts right after [p] and [m] is
    as long as [q]: then [p] is a plain string, [m] a highlight span and
    [rest] is cut in the same way.  [k] is the offset of [s] in the
    snippet; the loop keys a span by the offset at which it resumed. *)
Inductive scanned (q : text) : nat → text → list part → Prop :=
| scanned_rest k s :
    absent q s → scanned q k s (plain s)
| scanned_match k p m rest parts :
    first_occurrence q (p ++ m ++ rest) (length p) →
    length m = length q →
    scanned q (k + length p + length m) rest parts →
    scanned q k (p ++ m ++ rest) (plain p ++ Mark k m :: parts).

(** Every highlight span of [parts] holds an occurrence of [q], in the
    case of the text. *)
Definition marks_occurrences (q : text) (parts : list part) : Prop :=
  ∀ k m, Mark k m ∈ parts → toLowerCase m = toLowerCase q.

(** The window around an occurrence at [i], with its ellipses: the units
    of [t] from [max(0, i - 30)] to [min(len(t), i + len(q) + 70)],
    after ["..."] when the window starts after the first unit of [t] and
    before ["..."] when it ends before the last one. *)
Definition snippet_window (t q : text) (i : nat) : text :=
  let start := i - 30 in
  let stop := length t `min` (i + length q + 70) in
  (if 0 <? start then ellipsis else [])
  ++ take (stop - start) (drop start t)
  ++ (if stop <? length t then ellipsis else []).

(** [q] occurs in [s], case-insensitively. *)
Definition contains (q s : text) : bool :=
  includes (toLowerCase s) (toLowerCase q).

Definition opt_contains (q : text) (s : option text) : bool :=
  opt_includes s (toLowerCase q).

Definition folder_matches (q : text) (f : Folder) : bool :=
  contains q (folder_name f) || contains q (folder_purpose f)
  || contains q (folder_description f).

Definition document_matches (q : text) (d : Document) : bool :=
  contains q (doc_name d).

Definition comment_matches (q : text) (c : Comment) : bool :=
  opt_contains q (comment_message c) || opt_contains q (comment_name c).

Definition discussion_matches (q : text) (d : Discussion) : bool :=
  opt_contains q (disc_name d) || opt_contains q (disc_message d)
  || existsb (comment_matches q) (default [] (disc_comments d)).

(** The result of an entity: its type tag, title and navigation. *)
Definition folder_result (r : repo) (f : Folder) (res : SearchResult) : Prop :=
  type res = folder ∧ title res = folder_name f ∧ result_repo res = Some r
  ∧ onClick res = ToFolder r (folder_name f).

Definition document_result (d : Document) (res : SearchResult) : Prop :=
  type res = document ∧ title res = doc_name d ∧ onClick res = ToDocuments.

Definition discussion_result (d : Discussion) (res : SearchResult) : Prop :=
  type res = discussion
  ∧ title res = or_text (default [] (disc_name d)) (txt "Untitled")
  ∧ onClick res = ToPost (disc_id d).

(** The first 100 units of a text in which the term does not occur, as
    the snippet of a result; no snippet for the empty text. *)
Definition excerpt (body : text) : option node :=
  if nonempty body
  then Some (Text (take 100 body ++ if 100 <? length body then ellipsis else []))
  else None.

(** What one call of a [forEach] body does to [foundResults]: nothing, or
    one result pushed at the end. *)
Definition pushes {A} (matches : A → bool) (rel : A → SearchResult → Prop)
    (step : list SearchResult → A → option (list SearchResult)) : Prop :=
  ∀ acc x, ∃ rs,
    step acc x = Some (acc ++ rs) ∧
    if matches x then ∃ res, rs = [res] ∧ rel x res else rs = [].

(** A snapshot for the examples. *)
Definition sample_snapshot : Snapshot :=
  {| uiFolders := [ {| folder_name := txt "Hooks"; folder_purpose := [];
                       folder_description := txt "Setup and teardown" |} ];
     apiFolders := [ {| folder_name := txt "Tests"; folder_purpose := [];
                        folder_description := txt "Webhook tests" |} ];
     documents := [ {| doc_name := txt "hooks.pdf";
                       doc_uploadedAt := txt "2026-01-01T00:00:00.000Z" |} ];
     discussions := [ {| disc_id := txt "p1"; disc_name := Some (txt "Ann");
                         disc_message := Some (txt "hello world");
                         disc_comments := Some [] |} ] |}.

(** The string a node displays. *)
Definition node_text (n : node) : text :=
  match n with
  | Text s => s
  | Fragment parts => displayed parts
  end.

(** The keys of the highlight spans of a fragment, in their order. *)
Definition mark_keys (parts : list part) : list nat :=
  omap (λ p, match p with Mark k _ => Some k | Plain _ => None end) parts.

End Search.

(** ** Strings outside Latin-1

    A JavaScript string is a sequence of UTF-16 code units, and
    [String.prototype.toLowerCase] follows the Unicode case tables, which
    are no part of the repository: most units become one unit, U+0130
    becomes the two units U+0069 U+0307.  [Search] holds the code on the
    strings of Latin-1 units, where lower-casing keeps the length; this
    module holds [getHighlightedSnippet] on all strings, a unit being its
    number, with [toLowerCase] as a parameter. *)

Module Utf16.

Abbreviation str := (list N).

(** The units of a Latin-1 string and of a literal. *)
Definition units (s : Search.text) : str := N_of_ascii <$> s.

Definition lit (s : string) : str := units (Search.txt s).

(** [s.startsWith(q)] *)
Fixpoint startsWith (s q : str) {struct q} : bool :=
  match q, s with
  | [], _ => true
  | _ :: _, [] => false
  | a :: q', b :: s' => bool_decide (a = b) && startsWith s' q'
  end.

Fixpoint scan (q s : str) (k : nat) : option nat :=
  if startsWith s q then Some k
  else match s with
       | [] => None
       | _ :: s' => scan q s' (S k)
       end.

(** [s.indexOf(q, position)], [None] for [-1]. *)
Definition indexOf (s q : str) (position : nat) : option nat :=
  let start := position `min` length s in
  scan q (drop start s) start.

(** [s.substring(a, b)] *)
Definition substring (s : str) (a b : nat) : str :=
  let a := a `min` length s in
  let b := b `min` length s in
  take (a `max` b - a `min` b) (drop (a `min` b) s).

(** [s.substring(a)] *)
Definition substring_from (s : str) (a : nat) : str :=
  substring s a (length s).

Definition ellipsis : str := lit "...".

Inductive part :=
| Plain (s : str)
| Mark (key : nat) (s : str).

Inductive node :=
| Text (s : str)
| Fragment (parts : list part).

(** The [while (searchIndex !== -1)] loop. *)
Fixpoint highlight (fuel : nat) (snippet snippetLower lowerSearch : str)
    (searchLength : nat) (parts : list part) (currentIndex : nat)
    (searchIndex : option nat) : option (list part * nat) :=
  match searchIndex with
  | None => Some (parts, currentIndex)
  | Some searchIndex =>
      match fuel with
      | 0 => None
      | S fuel =>
          let parts :=
            if currentIndex <? searchIndex
            then parts ++ [Plain (substring snippet currentIndex searchIndex)]
            else parts in
          let parts :=
            parts ++ [Mark currentIndex
                        (substring snippet searchIndex
                                   (searchIndex + searchLength))] in
          let currentIndex := searchIndex + searchLength in
          highlight fuel snippet snippetLower lowerSearch searchLength parts
            currentIndex (indexOf snippetLower lowerSearch currentIndex)
      end
  end.

Section toLowerCase.

(** [String.prototype.toLowerCase] *)
Variable toLowerCase : str → str.

Definition getHighlightedSnippet (fuel : nat) (text searchTerm : str)
    (maxLength : nat) : option node :=
  let lowerText := toLowerCase text in
  let lowerSearch := toLowerCase searchTerm in
  match indexOf lowerText lowerSearch 0 with
  | None =>
      Some (Text (substring text 0 maxLength
                  ++ if maxLength <? length text then ellipsis else []))
  | Some index =>
      let snippetStart := index - 30 in
      let snippetEnd := length text `min` (index + length searchTerm + 70) in
      let snippet := substring text snippetStart snippetEnd in
      let snippet := if 0 <? snippetStart then ellipsis ++ snippet else snippet in
      let snippet :=
        if snippetEnd <? length text then snippet ++ ellipsis else snippet in
      let snippetLower := toLowerCase snippet in
      '(parts, currentIndex) ←
        highlight fuel snippet snippetLower lowerSearch (length searchTerm)
                  [] 0 (indexOf snippetLower lowerSearch 0);
      let parts :=
        if currentIndex <? length snippet
        then parts ++ [Plain (substring_from snippet currentIndex)]
        else parts in
      Some (Fragment parts)
  end.

End toLowerCase.

(** *** Vocabulary of the properties *)

(** A Latin-1 node, in units. *)
Definition part_units (p : Search.part) : part :=
  match p with
  | Search.Plain s => Plain (units s)
  | Search.Mark k s => Mark k (units s)
  end.

Definition node_units (n : Search.node) : node :=
  match n with
  | Search.Text s => Text (units s)
  | Search.Fragment parts => Fragment (part_units <$> parts)
  end.

(** [lower] is, on the strings of Latin-1 units, the lower-casing of
    [Search]. *)
Definition latin1_lower (lower : str → str) : Prop :=
  ∀ s : Search.text, lower (units s) = units (Search.toLowerCase s).

(** U+0130, LATIN CAPITAL LETTER I WITH DOT ABOVE, and the two units of
    its lower case: U+0069 and U+0307, COMBINING DOT ABOVE. *)
Definition capital_I_dot : N := 304.
Definition combining_dot : N := 775.

(** A function for the examples, with the case mappings of the Latin-1
    units and of U+0130; it leaves every other unit as it is, which the
    built-in does not. *)
Definition sample_lower_unit (u : N) : list N :=
  if (u =? capital_I_dot)%N then [N_of_ascii "i"; combining_dot]
  else if (u <? 256)%N then [N_of_ascii (Search.lower_unit (ascii_of_N u))]
  else [u].

Definition sample_toLowerCase (s : str) : str := s ≫= sample_lower_unit.

End Utf16.

(** ** The API client

    The wrappers of [utils/api]: one [fetch] each, an [Error] thrown when
    the response is not [ok], and otherwise the named part of the JSON
    answer.  A call runs against the store of the server; the bearer
    token and the transport are left out, the server always answers. *)

Module Api.
Import Server.

Definition client (A : Type) : Type := store → outcome A * store.

(** [response.ok]: a status from 200 to 299. *)
Definition ok (r : response) : bool :=
  (200 <=? status r)%Z && (status r <=? 299)%Z.

(** [data.k] of the parsed answer *)
Definition data (k : string) (r : response) : option json :=
  match payload r with
  | JObj o => o !! k
  | _ => None
  end.

Definition fetch {A} (h : handler) (failure : string) (read : response → A)
    : client A := λ s,
  let r := h s in
  (if ok r.1 then Return (read r.1) else Throw ("Error: " +:+ failure), r.2).

Definition documentsAPI_getAll : client (option json) :=
  fetch get_documents "Failed to fetch documents" (data "documents").

Definition documentsAPI_upload (e : env) (document : json) : client (option json) :=
  fetch (post_documents e document) "Failed to upload document" (data "document").

(** [id] reaches the route as it is: the ids in use are the generated
    UUIDs, free of the delimiters of a URL. *)
Definition documentsAPI_update (id : string) (updates : json)
    : client (option json) :=
  fetch (put_documents id updates) "Failed to update document" (data "document").

Definition documentsAPI_delete (id : string) : client bool :=
  fetch (delete_documents id) "Failed to delete document" (λ _, true).

Definition structureAPI_get (r : repo) : client (option json) :=
  fetch (get_structure r)
        ("Failed to fetch " +:+ repo_label r +:+ " structure") (data "structure").

Definition structureAPI_update (r : repo) (structure : json) : client bool :=
  fetch (post_structure r (JObj {[ "structure" := structure ]}))
        ("Failed to update " +:+ repo_label r +:+ " structure") (λ _, true).

Definition communityAPI_getPosts : client (option json) :=
  fetch get_posts "Failed to fetch posts" (data "posts").

Definition communityAPI_createPost (e : env) (post : json) : client (option json) :=
  fetch (post_posts e post) "Failed to create post" (data "post").

Definition communityAPI_addComment (e : env) (postId : string) (comment : json)
    : client (option json) :=
  fetch (post_comments e postId comment) "Failed to add comment" (data "comment").

Definition communityAPI_deletePost (id : string) : client bool :=
  fetch (delete_posts id) "Failed to delete post" (λ _, true).

End Api.

(** ** The documents page *)

Module DocumentsPage.
Import Server Api.

(** [arr.slice(start, end)]: a negative index counts from the end, and
    both are clamped to the array. *)
Definition slice {A} (l : list A) (start stop : Z) : list A :=
  let len := Z.of_nat (length l) in
  let relative (i : Z) := if (i <? 0)%Z then Z.max (len + i) 0 else Z.min i len in
  let from := relative start in
  let to := relative stop in
  take (Z.to_nat (to - from)) (drop (Z.to_nat from) l).

Definition ITEMS_PER_PAGE : Z := 12.

(** [Math.ceil(filteredDocuments.length / ITEMS_PER_PAGE)]: the quotient
    of an array length by 12 is a double that is an integer exactly when
    the length is a multiple of 12, so [Math.ceil] yields the ceiling of
    the exact quotient. *)
Definition totalPages {A} (filteredDocuments : list A) : Z :=
  ((Z.of_nat (length filteredDocuments) + ITEMS_PER_PAGE - 1) / ITEMS_PER_PAGE)%Z.

Definition paginatedDocuments {A} (filteredDocuments : list A) (currentPage : Z)
    : list A :=
  let startIndex := ((currentPage - 1) * ITEMS_PER_PAGE)%Z in
  let endIndex := (startIndex + ITEMS_PER_PAGE)%Z in
  slice filteredDocuments startIndex endIndex.

(** The buttons of the pagination bar, which exists when there is more
    than one page: previous (disabled on page 1), next (disabled on the
    last page), and the numbers of the first page, of the last page and
    of the pages next to the current one.  [None]: no such click. *)
Inductive page_button := Previous | Next | Page (page : Z).

Definition press {A} (filteredDocuments : list A) (b : page_button)
    (currentPage : Z) : option Z :=
  let total := totalPages filteredDocuments in
  if (1 <? total)%Z then
    match b with
    | Previous =>
        if (currentPage =? 1)%Z then None
        else Some (Z.max 1 (currentPage - 1))
    | Next =>
        if (currentPage =? total)%Z then None
        else Some (Z.min total (currentPage + 1))
    | Page page =>
        if (1 <=? page)%Z && (page <=? total)%Z
           && ((page =? 1)%Z || (page =? total)%Z
               || (currentPage - 1 <=? page)%Z && (page <=? currentPage + 1)%Z)
        then Some page else None
    end
  else None.

(** [toggleFavorite(doc)], for a document whose [id] is [id] and whose
    [isFavorite] reads [isFavorite]: the PUT of the negated flag, then
    [loadDocuments]; [Some docs] is the value handed to [setDocuments],
    [None] says that the page keeps its documents (an error was caught
    and logged). *)
Definition loadDocuments : store → option (option json) * store := λ s,
  match documentsAPI_getAll s with
  | (Return docs, s') => (Some docs, s')
  | (Throw _, s') => (None, s')
  end.

Definition toggleFavorite (id : string) (isFavorite : option json)
    : store → option (option json) * store := λ s,
  match documentsAPI_update id
          (JObj {[ "isFavorite" := JBool (negb (truthy isFavorite)) ]}) s with
  | (Return _, s') => loadDocuments s'
  | (Throw _, s') => (None, s')
  end.

(** [handleDelete(id)] once the dialog is confirmed. *)
Definition handleDelete (id : string) : store → option (option json) * store := λ s,
  match documentsAPI_delete id s with
  | (Return _, s') => loadDocuments s'
  | (Throw _, s') => (None, s')
  end.

End DocumentsPage.

(** ** The rich text editor

    [value] is the text of the editor; [selection] is what the first
    [textarea] of the document reports as [selectionStart] and
    [selectionEnd], [None] when there is no [textarea]. *)

Module RichTextEditor.
Import Search.

(** [insertFormatting(before, after)]: the text handed to [onChange] and
    the position the cursor is then set to; [None] when nothing is
    done. *)
Definition insertFormatting (value : text) (selection : option (nat * nat))
    (before after : text) : option (text * nat) :=
  match selection with
  | None => None
  | Some (start, stop) =>
      let selectedText := substring value start stop in
      let beforeText := substring value 0 start in
      let afterText := substring_from value stop in
      let newText := beforeText ++ before ++ selectedText ++ after ++ afterText in
      let newPosition := start + length before + length selectedText in
      Some (newText, newPosition)
  end.

(** [insertAtCursor(text)] *)
Definition insertAtCursor (value : text) (selection : option (nat * nat))
    (inserted : text) : option (text * nat) :=
  match selection with
  | None => None
  | Some (start, _) =>
      let beforeText := substring value 0 start in
      let afterText := substring_from value start in
      Some (beforeText ++ inserted ++ afterText, start + length inserted)
  end.

End RichTextEditor.

(** ** The community page *)

Module CommunityPage.
Import Server Api Search.

Record Attachment := {
  att_id : string;
  att_name : string;
  att_type : string;
  att_size : string;
  att_dataUrl : string;
}.

(** [JSON.stringify] of an attachment and of a string of the form *)
Definition attachment_json (a : Attachment) : json :=
  JObj (<["dataUrl" := JStr (att_dataUrl a)]>
       (<["size" := JStr (att_size a)]>
       (<["type" := JStr (att_type a)]>
       (<["name" := JStr (att_name a)]>
       {[ "id" := JStr (att_id a) ]})))).

Definition text_json (s : text) : json := JStr (String.string_of_list_ascii s).

(** The errors of a form: [name] and [message], each set or not. *)
Record errors := Errors { err_name : option string; err_message : option string }.

(** [validatePostForm()]: the errors it sets and what it returns. *)
Definition validatePostForm (newPostName newPostMessage : text) : errors * bool :=
  let name := if nonempty (trim newPostName) then None
              else Some "Name is required" in
  let message := if nonempty (trim newPostMessage) then None
                 else Some "Message is required" in
  (Errors name message,
   match name, message with None, None => true | _, _ => false end).

Definition validateCommentForm (commentName commentMessage : text) : errors * bool :=
  let name := if nonempty (trim commentName) then None
              else Some "Name is required" in
  let message := if nonempty (trim commentMessage) then None
                 else Some "Comment is required" in
  (Errors name message,
   match name, message with None, None => true | _, _ => false end).

Definition form_body (name message : text) (attachments : list Attachment) : json :=
  JObj (<["attachments" := JArr (attachment_json <$> attachments)]>
       (<["message" := text_json (trim message)]>
       {[ "name" := text_json (trim name) ]})).

(** What [handleCreatePost] does to the store: nothing when the form is
    not valid, otherwise the POST of the trimmed form.  [Some r] is the
    outcome of [communityAPI.createPost]. *)
Definition handleCreatePost (e : env) (newPostName newPostMessage : text)
    (newPostAttachments : list Attachment)
    : store → option (outcome (option json)) * store := λ s,
  if (validatePostForm newPostName newPostMessage).2 then
    let r := communityAPI_createPost e
               (form_body newPostName newPostMessage newPostAttachments) s in
    (Some r.1, r.2)
  else (None, s).

(** What [handleAddComment(postId)] does to the store. *)
Definition handleAddComment (e : env) (postId : string)
    (commentName commentMessage : text) (commentAttachments : list Attachment)
    : store → option (outcome (option json)) * store := λ s,
  if (validateCommentForm commentName commentMessage).2 then
    let r := communityAPI_addComment e postId
               (form_body commentName commentMessage commentAttachments) s in
    (Some r.1, r.2)
  else (None, s).

(** [removeAttachment(id)] on the attachments of a form *)
Definition removeAttachment (id : string) (attachments : list Attachment)
    : list Attachment :=
  filter (λ a, att_id a ≠ id) attachments.

(** [toggleCommentsExpanded(postId)] on the set [expandedPosts] *)
Definition toggleCommentsExpanded (postId : string) (expandedPosts : gset string)
    : gset string :=
  if decide (postId ∈ expandedPosts) then expandedPosts ∖ {[ postId ]}
  else expandedPosts ∪ {[ postId ]}.

(** The comments a post shows: all of them when it is expanded, the
    first one otherwise ([post.comments.slice(0, 1)]). *)
Definition shown_comments {A} (postId : string) (expandedPosts : gset string)
    (comments : list A) : list A :=
  if decide (postId ∈ expandedPosts) then comments
  else DocumentsPage.slice comments 0 1.

End CommunityPage.

(** * Properties *)

(** ** The REST handlers *)

Section server_facts.
Import Server.

Implicit Types (s : store) (l docs : list json) (o b p : gmap string json).

Lemma unset_js_or key s d : unset key s → js_or (kv_get key s) d = d.
Proof. by intros [-> | ->]. Qed.

Lemma collection_js_or key s l :
  collection key s = Some l → js_or (kv_get key s) (JArr []) = JArr l.
Proof.
  unfold collection. destruct (js_or _ _); intros; by simplify_eq.
Qed.

Lemma id_is_true id v : id_is id v = true ↔ v = Some (JStr id).
Proof.
  destruct v as [[]|]; simpl; try (split; [discriminate | congruence]).
  rewrite String.eqb_eq. split; congruence.
Qed.

Lemma id_is_false id v : id_is id v = false ↔ v ≠ Some (JStr id).
Proof. rewrite <- id_is_true. destruct (id_is id v); split; congruence. Qed.

Lemma has_id_record id o : has_id id (JObj o) = Return (id_is id (o !! "id")).
Proof. reflexivity. Qed.

Lemma has_id_absent id l x :
  Forall is_record l → no_such_id id l → x ∈ l → has_id id x = Return false.
Proof.
  intros Hrec Hno Hx. rewrite Forall_forall in Hrec.
  specialize (Hrec x Hx). destruct x; try done.
  rewrite has_id_record. f_equal. apply id_is_false. by apply Hno.
Qed.

Lemma filter_out_absent id l :
  Forall is_record l → no_such_id id l → filter_out id l = Return l.
Proof.
  intros Hrec Hno.
  assert (Hall : ∀ x, x ∈ l → has_id id x = Return false)
    by (intros; by eapply has_id_absent).
  clear Hrec Hno. induction l as [|x l IH]; [done|].
  simpl. rewrite (Hall x) by left. simpl.
  rewrite IH; [done|]. intros y Hy. apply Hall. by right.
Qed.

Lemma findIndex_from_absent i id l :
  Forall is_record l → no_such_id id l → findIndex_from i id l = Return None.
Proof.
  intros Hrec Hno.
  assert (Hall : ∀ x, x ∈ l → has_id id x = Return false)
    by (intros; by eapply has_id_absent).
  clear Hrec Hno. revert i. induction l as [|x l IH]; intros i; [done|].
  simpl. rewrite (Hall x) by left. simpl.
  apply IH. intros y Hy. apply Hall. by right.
Qed.

Lemma findIndex_from_first i id pre o post :
  Forall is_record pre → no_such_id id pre → o !! "id" = Some (JStr id) →
  findIndex_from i id (pre ++ JObj o :: post) = Return (Some (i + length pre)).
Proof.
  intros Hrec Hno Ho.
  assert (Hall : ∀ x, x ∈ pre → has_id id x = Return false)
    by (intros; by eapply has_id_absent).
  clear Hrec Hno. revert i. induction pre as [|x pre IH]; intros i; simpl.
  - rewrite Ho. simpl. rewrite String.eqb_refl. simpl. f_equal. f_equal. lia.
  - rewrite (Hall x) by left. simpl. rewrite IH.
    + f_equal. f_equal. lia.
    + intros y Hy. apply Hall. by right.
Qed.

(** C10: when the store holds no value, or [null], under the key of a
    collection, its GET endpoint answers 200 with an empty array under
    the named key, and writes nothing: [/documents], [/structure/ui],
    [/structure/api] and [/community/posts]. *)
Theorem get_unset_collection_is_empty s :
  (unset documents_key s →
   get_documents s = (Response 200 (JObj {[ "documents" := JArr [] ]}), s)) ∧
  (∀ r, unset (structure_key r) s →
   get_structure r s = (Response 200 (JObj {[ "structure" := JArr [] ]}), s)) ∧
  (unset posts_key s →
   get_posts s = (Response 200 (JObj {[ "posts" := JArr [] ]}), s)).
Proof.
  split_and!.
  - intros H. unfold get_documents, try_catch. by rewrite unset_js_or.
  - intros r H. unfold get_structure, try_catch. by rewrite unset_js_or.
  - intros H. unfold get_posts, try_catch. by rewrite unset_js_or.
Qed.

Lemma get_unset_collection_is_empty_witness :
  let s : store := {[ "wis-documents" := JNull ]} in
  get_documents s = (Response 200 (JObj {[ "documents" := JArr [] ]}), s) ∧
  get_structure UI s = (Response 200 (JObj {[ "structure" := JArr [] ]}), s) ∧
  get_structure API s = (Response 200 (JObj {[ "structure" := JArr [] ]}), s) ∧
  get_posts s = (Response 200 (JObj {[ "posts" := JArr [] ]}), s).
Proof.
  intros s.
  destruct (get_unset_collection_is_empty s) as (Hd & Hs & Hp).
  split_and!.
  - apply Hd. right. reflexivity.
  - apply Hs. left. reflexivity.
  - apply Hs. left. reflexivity.
  - apply Hp. left. reflexivity.
Defined.

Lemma post_documents_accepted e b s docs name dataUrl :
  b !! "name" = Some name → truthy_json name = true →
  b !! "dataUrl" = Some dataUrl → truthy_json dataUrl = true →
  collection documents_key s = Some docs →
  let doc := new_document e (Some name) (b !! "size") (b !! "type")
               (Some dataUrl) (b !! "uploadedAt") (b !! "category")
               (b !! "isFavorite") in
  post_documents e (JObj b) s =
    (Response 200 (JObj (<["message" := JStr "Document uploaded successfully"]>
                           {[ "document" := JObj doc ]})),
     <[documents_key := JArr (docs ++ [JObj doc])]> s).
Proof.
  intros Hn Tn Hd Td Hc doc. unfold post_documents, try_catch. simpl.
  rewrite Hn, Hd. simpl. rewrite Tn, Td. simpl.
  rewrite (collection_js_or _ _ _ Hc). reflexivity.
Qed.

Lemma new_document_lookup e name size type dataUrl uploadedAt category fav k :
  new_document e name size type dataUrl uploadedAt category fav !! k =
    if decide (k = "isFavorite") then Some (js_or fav (JBool false))
    else if decide (k = "category") then Some (js_or category (JStr "Uncategorized"))
    else if decide (k = "uploadedAt") then Some (js_or uploadedAt (JStr (now e)))
    else if decide (k = "dataUrl") then dataUrl
    else if decide (k = "type") then type
    else if decide (k = "size") then size
    else if decide (k = "name") then name
    else if decide (k = "id") then Some (JStr (randomUUID e))
    else None.
Proof.
  unfold new_document, set_prop.
  repeat (case_decide; [subst k;
    destruct name, size, type, dataUrl;
    repeat (rewrite lookup_insert_ne by done); by rewrite ?lookup_insert_eq |]).
  destruct name, size, type, dataUrl;
    repeat (rewrite lookup_insert_ne by done); by rewrite lookup_empty.
Qed.

Lemma occurrences_app id l1 l2 :
  occurrences id (l1 ++ l2) = occurrences id l1 + occurrences id l2.
Proof. unfold occurrences. by rewrite List.filter_app, length_app. Qed.

Lemma occurrences_absent id l : no_such_id id l → occurrences id l = 0.
Proof.
  unfold occurrences. induction l as [|x l IH]; intros Hno; [done|].
  simpl. assert (no_such_id id l) by (intros o Ho; apply Hno; by right).
  destruct x; simpl; auto.
  destruct (id_is id (o !! "id")) eqn:E; auto.
  apply id_is_true in E. exfalso. by apply (Hno o); [left|].
Qed.

(** C4, as the handler has it: a POST /documents whose body carries a
    truthy [name] and a truthy [dataUrl] (the handler treats an empty
    string, [null], [false] and [0] as missing) appends one document to
    the stored collection.  Its [id] is the generated one, [uploadedAt]
    is the current time when not supplied, [category] is "Uncategorized"
    and [isFavorite] is [false] when not supplied.  GET /documents then
    lists the collection followed by that document, and the generated id,
    fresh for the collection, occurs once in it. *)
Theorem post_documents_then_get e b s docs name dataUrl :
  b !! "name" = Some name → truthy_json name = true →
  b !! "dataUrl" = Some dataUrl → truthy_json dataUrl = true →
  collection documents_key s = Some docs →
  no_such_id (randomUUID e) docs →
  ∃ doc s',
    post_documents e (JObj b) s =
      (Response 200
         (JObj (<["message" := JStr "Document uploaded successfully"]>
                  {[ "document" := JObj doc ]})), s') ∧
    s' = <[documents_key := JArr (docs ++ [JObj doc])]> s ∧
    doc !! "id" = Some (JStr (randomUUID e)) ∧
    doc !! "name" = Some name ∧ doc !! "dataUrl" = Some dataUrl ∧
    doc !! "size" = b !! "size" ∧ doc !! "type" = b !! "type" ∧
    (b !! "uploadedAt" = None → doc !! "uploadedAt" = Some (JStr (now e))) ∧
    (b !! "category" = None → doc !! "category" = Some (JStr "Uncategorized")) ∧
    (b !! "isFavorite" = None → doc !! "isFavorite" = Some (JBool false)) ∧
    get_documents s' =
      (Response 200 (JObj {[ "documents" := JArr (docs ++ [JObj doc]) ]}), s') ∧
    occurrences (randomUUID e) (docs ++ [JObj doc]) = 1.
Proof.
  intros Hn Tn Hd Td Hc Hfresh.
  eexists _, _. split; [by apply post_documents_accepted|].
  split; [reflexivity|].
  rewrite !new_document_lookup. simpl.
  split_and!; try done.
  - by intros ->.
  - by intros ->.
  - by intros ->.
  - unfold get_documents, try_catch, kv_get. by rewrite lookup_insert_eq.
  - rewrite occurrences_app, occurrences_absent by done.
    unfold occurrences. simpl. rewrite new_document_lookup. simpl.
    by rewrite String.eqb_refl.
Qed.

Lemma post_documents_then_get_witness :
  let e := Env "8c1f" "2026-01-01T00:00:00.000Z" in
  let b : gmap string json :=
    <["dataUrl" := JStr "data:text/plain;base64,eA=="]> {[ "name" := JStr "a.txt" ]} in
  ∃ doc s',
    (post_documents e (JObj b) ∅).2 = s' ∧
    s' = <[documents_key := JArr [JObj doc]]> ∅ ∧
    doc !! "category" = Some (JStr "Uncategorized") ∧
    occurrences (randomUUID e) [JObj doc] = 1.
Proof.
  intros e b.
  destruct (post_documents_then_get e b ∅ [] (JStr "a.txt")
              (JStr "data:text/plain;base64,eA=="))
    as (doc & s' & Hpost & Hs & _ & _ & _ & _ & _ & _ & Hcat & _ & _ & Hocc);
    [reflexivity | reflexivity | reflexivity | reflexivity | reflexivity
    | intros o Ho; by apply elem_of_nil in Ho |].
  exists doc, s'. split_and!.
  - by rewrite Hpost.
  - exact Hs.
  - apply Hcat. reflexivity.
  - exact Hocc.
Defined.

(** C4, as stated, fails: this body contains [name] and [dataUrl], the
    handler answers 400 and the collection stays empty. *)
Lemma post_documents_empty_name_rejected :
  let e := Env "8c1f" "2026-01-01T00:00:00.000Z" in
  let body :=
    JObj (<["dataUrl" := JStr "data:text/plain;base64,eA=="]>
            {[ "name" := JStr "" ]}) in
  get_prop body "name" = Return (Some (JStr "")) ∧
  get_prop body "dataUrl" = Return (Some (JStr "data:text/plain;base64,eA==")) ∧
  post_documents e body ∅ =
    (Response 400
       (JObj {[ "error" := JStr "Missing required fields: name and dataUrl" ]}),
     ∅) ∧
  get_documents ∅ = (Response 200 (JObj {[ "documents" := JArr [] ]}), ∅).
Proof. by vm_compute. Qed.






Lemma lookup_middle (pre : list json) x post :
  (pre ++ x :: post) !! length pre = Some x.
Proof. by rewrite list_lookup_middle. Qed.

Lemma insert_middle (pre : list json) x y post :
  <[length pre := y]> (pre ++ x :: post) = pre ++ y :: post.
Proof. by rewrite insert_app_r_alt, Nat.sub_diag by done. Qed.

(** C6: when the collection holds a document with id [d], the first such
    document being the record [o], PUT /documents/:d with the object [p]
    as body answers with, and stores in the place of [o], the record
    that has the id [d] and, for every other key, the value of [p] when
    [p] has the key and the value of [o] otherwise; the documents before
    and after it are the same, in the same order. *)
Theorem put_documents_merges d p s pre o post :
  collection documents_key s = Some (pre ++ JObj o :: post) →
  Forall is_record pre → no_such_id d pre →
  o !! "id" = Some (JStr d) →
  ∃ o',
    put_documents d (JObj p) s =
      (Response 200
         (JObj (<["message" := JStr "Document updated successfully"]>
                  {[ "document" := JObj o' ]})),
       <[documents_key := JArr (pre ++ JObj o' :: post)]> s) ∧
    o' !! "id" = Some (JStr d) ∧
    (∀ k, k ≠ "id" →
       o' !! k = match p !! k with Some v => Some v | None => o !! k end).
Proof.
  intros Hc Hrec Hno Ho.
  exists (<["id" := JStr d]> (p ∪ o)). split_and!.
  - unfold put_documents, try_catch.
    rewrite (collection_js_or _ _ _ Hc). simpl.
    unfold findIndex. rewrite findIndex_from_first by done. simpl.
    rewrite lookup_middle. simpl. by rewrite insert_middle.
  - by rewrite lookup_insert_eq.
  - intros k Hk. rewrite lookup_insert_ne by done.
    rewrite lookup_union. destruct (p !! k), (o !! k); done.
Qed.

Lemma put_documents_merges_witness :
  let o : gmap string json :=
    <["isFavorite" := JBool false]> (<["name" := JStr "a.txt"]> {[ "id" := JStr "d1" ]}) in
  let other : json := JObj {[ "id" := JStr "d0" ]} in
  let p : gmap string json :=
    <["id" := JStr "zz"]> {[ "isFavorite" := JBool true ]} in
  let s : store := {[ documents_key := JArr [other; JObj o; other] ]} in
  ∃ o', (put_documents "d1" (JObj p) s).2
          = <[documents_key := JArr [other; JObj o'; other]]> s ∧
        o' !! "id" = Some (JStr "d1") ∧
        o' !! "isFavorite" = Some (JBool true) ∧
        o' !! "name" = Some (JStr "a.txt").
Proof.
  intros o other p s.
  destruct (put_documents_merges "d1" p s [other] o [other])
    as (o' & Hput & Hid & Hk).
  - reflexivity.
  - repeat constructor.
  - intros x Hx. apply list_elem_of_singleton in Hx.
    injection Hx as ->. by vm_compute.
  - reflexivity.
  - exists o'. split_and!.
    + by rewrite Hput.
    + exact Hid.
    + by rewrite Hk.
    + by rewrite Hk.
Defined.

(** C7: when no record of the stored collection has the id of the
    route, DELETE /documents/:id answers 404 and leaves the store as it
    was, and so does POST /community/posts/:id/comments for a body with
    a truthy [name] and [message]. *)
Theorem unknown_id_is_not_found id s l :
  Forall is_record l → no_such_id id l →
  (collection documents_key s = Some l →
   delete_documents id s =
     (Response 404 (JObj {[ "error" := JStr "Document not found" ]}), s)) ∧
  (collection posts_key s = Some l →
   ∀ e b, truthy (b !! "name") = true → truthy (b !! "message") = true →
   post_comments e id (JObj b) s =
     (Response 404 (JObj {[ "error" := JStr "Post not found" ]}), s)).
Proof.
  intros Hrec Hno. split.
  - intros Hc. unfold delete_documents, try_catch.
    rewrite (collection_js_or _ _ _ Hc). simpl.
    rewrite filter_out_absent by done. simpl.
    by rewrite Nat.eqb_refl.
  - intros Hc e b Hn Hm. unfold post_comments, try_catch. simpl.
    rewrite Hn, Hm. simpl.
    rewrite (collection_js_or _ _ _ Hc). simpl.
    unfold findIndex. by rewrite findIndex_from_absent.
Qed.

Lemma unknown_id_is_not_found_witness :
  let l := [JObj {[ "id" := JStr "p1" ]}; JObj {[ "id" := JStr "p2" ]}] in
  let s : store := <[posts_key := JArr l]> {[ documents_key := JArr l ]} in
  let b : gmap string json :=
    <["message" := JStr "hello"]> {[ "name" := JStr "Ann" ]} in
  delete_documents "p3" s =
    (Response 404 (JObj {[ "error" := JStr "Document not found" ]}), s) ∧
  post_comments (Env "8c1f" "2026-01-01T00:00:00.000Z") "p3" (JObj b) s =
    (Response 404 (JObj {[ "error" := JStr "Post not found" ]}), s).
Proof.
  intros l s b.
  destruct (unknown_id_is_not_found "p3" s l) as [Hdel Hcom].
  - repeat constructor.
  - intros o Ho. repeat (apply elem_of_cons in Ho as [Ho | Ho];
      [injection Ho as ->; by vm_compute |]).
    by apply elem_of_nil in Ho.
  - split.
    + apply Hdel. reflexivity.
    + apply Hcom; reflexivity.
Defined.

End server_facts.

(** ** The project structure page *)

Section structure_facts.
Import Server Structure.

Implicit Types (st : state) (s : store) (pre post l : list FolderInfo)
  (a b : FolderInfo).

Lemma read_fmap_middle pre a post :
  JsArray.read (Some <$> pre ++ a :: post) (length pre) = Some a.
Proof.
  unfold JsArray.read. rewrite list_lookup_fmap, list_lookup_middle; done.
Qed.

Lemma read_fmap_next pre a b post :
  JsArray.read (Some <$> pre ++ a :: b :: post) (S (length pre)) = Some b.
Proof.
  unfold JsArray.read.
  rewrite list_lookup_fmap, (cons_middle a pre), (assoc_L (++)).
  rewrite list_lookup_middle; [done|]. rewrite length_app. simpl. lia.
Qed.

Lemma write_fmap l i x y :
  l !! i = Some x → JsArray.write (Some <$> l) i (Some y) = Some <$> <[i := y]> l.
Proof.
  intros Hi. apply lookup_lt_Some in Hi. unfold JsArray.write.
  rewrite length_fmap. rewrite decide_True by done. by rewrite list_fmap_insert.
Qed.

Lemma swap_in_place pre a b post :
  <[length pre := b]> (<[S (length pre) := a]> (pre ++ a :: b :: post))
  = pre ++ b :: a :: post.
Proof.
  rewrite (insert_app_r_alt pre _ (S (length pre))) by lia.
  replace (S (length pre) - length pre) with 1 by lia. simpl.
  rewrite insert_app_r_alt by lia. by rewrite Nat.sub_diag.
Qed.

Lemma swap_in_place' pre a b post :
  <[S (length pre) := a]> (<[length pre := b]> (pre ++ a :: b :: post))
  = pre ++ b :: a :: post.
Proof.
  rewrite (insert_app_r_alt pre _ (length pre)) by lia.
  rewrite Nat.sub_diag. simpl.
  rewrite insert_app_r_alt by lia.
  by replace (S (length pre) - length pre) with 1 by lia.
Qed.

Lemma lookup_next pre a b post :
  (pre ++ a :: b :: post) !! S (length pre) = Some b.
Proof.
  rewrite (cons_middle a pre), (assoc_L (++)).
  rewrite list_lookup_middle; [done|]. rewrite length_app. simpl. lia.
Qed.

Lemma moveFolder_up pre a b post :
  moveFolder (pre ++ a :: b :: post) (S (length pre)) up
  = Some (Some <$> pre ++ b :: a :: post).
Proof.
  unfold moveFolder.
  rewrite bool_decide_true by lia.
  rewrite bool_decide_true by (rewrite length_fmap, length_app; simpl; lia).
  simpl andb. cbv iota.
  replace (Z.to_nat (Z.of_nat (S (length pre)) - 1)) with (length pre) by lia.
  rewrite read_fmap_middle, read_fmap_next.
  rewrite (write_fmap _ _ b) by apply lookup_next.
  rewrite (write_fmap _ _ a).
  - by rewrite swap_in_place.
  - rewrite list_lookup_insert_ne by lia. apply list_lookup_middle. done.
Qed.

Lemma moveFolder_down pre a b post :
  moveFolder (pre ++ a :: b :: post) (length pre) down
  = Some (Some <$> pre ++ b :: a :: post).
Proof.
  unfold moveFolder.
  rewrite bool_decide_true by lia.
  rewrite bool_decide_true by (rewrite length_fmap, length_app; simpl; lia).
  simpl andb. cbv iota.
  replace (Z.to_nat (Z.of_nat (length pre) + 1)) with (S (length pre)) by lia.
  rewrite read_fmap_middle, read_fmap_next.
  rewrite (write_fmap _ _ a) by (by apply list_lookup_middle).
  rewrite (write_fmap _ _ b).
  - by rewrite swap_in_place'.
  - rewrite list_lookup_insert_ne by lia. apply lookup_next.
Qed.

Lemma moveFolder_first l : moveFolder l 0 up = None.
Proof. reflexivity. Qed.

Lemma moveFolder_last pre a : moveFolder (pre ++ [a]) (length pre) down = None.
Proof.
  unfold moveFolder. rewrite bool_decide_true by lia.
  rewrite bool_decide_false; [done|].
  rewrite length_fmap, length_app. simpl. lia.
Qed.

(** C8: moving the folder at index [i] up swaps it with the folder at
    [i - 1] when [i >= 1] and changes nothing at index 0; moving it down
    swaps it with the folder at [i + 1] when there is one and changes
    nothing at the last index.  From [[A; B; C]], moving [B] up gives
    [[B; A; C]] and moving [A] up changes nothing. *)
Theorem moveFolder_swaps_adjacent pre a b post l :
  after_move (pre ++ a :: b :: post) (S (length pre)) up
    = Some <$> pre ++ b :: a :: post ∧
  after_move l 0 up = Some <$> l ∧
  after_move (pre ++ a :: b :: post) (length pre) down
    = Some <$> pre ++ b :: a :: post ∧
  after_move (pre ++ [a]) (length pre) down = Some <$> pre ++ [a] ∧
  (∀ A B C : FolderInfo,
     after_move [A; B; C] 1 up = [Some B; Some A; Some C] ∧
     moveFolder [A; B; C] 0 up = None ∧
     after_move [A; B; C] 0 up = [Some A; Some B; Some C]).
Proof.
  unfold after_move.
  rewrite moveFolder_up, moveFolder_down, moveFolder_first, moveFolder_last.
  split_and!; try done.
Qed.

Lemma serve_update_structure r l s :
  serve (update_structure r l) s = <[structure_key r := structure_json l]> s.
Proof.
  unfold serve, update_structure, post_structure, try_catch. simpl.
  by rewrite lookup_singleton_eq.
Qed.

Lemma folders_setCurrentFolders v st :
  folders (activeRepo st) (setCurrentFolders v st) = v.
Proof. unfold setCurrentFolders. by destruct (activeRepo st) eqn:E. Qed.

Lemma folders_setExpandedFolder r v st :
  folders r (setExpandedFolder v st) = folders r st.
Proof. by destruct r. Qed.

Lemma folders_setEditing r n d st : folders r (setEditing n d st) = folders r st.
Proof. by destruct r. Qed.

(** What the render after a handler sends and how the store answers. *)
Lemma click_touched act st st' r s :
  handle act st = Some (st', Some r) →
  click act (st, s) =
    Some (st', if 0 <? length (folders r st')
               then <[structure_key r := structure_json (folders r st')]> s
               else s).
Proof.
  intros H. unfold click. cbn [fst snd]. rewrite H.
  cbn [mbind option_bind]. unfold save_effect.
  destruct (0 <? length (folders r st')); [|done].
  cbn [foldl]. by rewrite serve_update_structure.
Qed.

Lemma dense_fmap_Some {A} (l : list A) : JsArray.dense (Some <$> l) = Some l.
Proof.
  unfold JsArray.dense. induction l as [|x l IH]; [done|].
  rewrite fmap_cons. cbn [mapM]. rewrite IH. done.
Qed.

Lemma split_at_pair l i :
  S i < length l → ∃ pre a b post, l = pre ++ a :: b :: post ∧ length pre = i.
Proof.
  intros Hi. exists (take i l).
  destruct (drop i l) as [|a [|b post]] eqn:E.
  - apply (f_equal length) in E. rewrite length_drop in E. simpl in E. lia.
  - apply (f_equal length) in E. rewrite length_drop in E. simpl in E. lia.
  - exists a, b, post. split.
    + by rewrite <- E, take_drop.
    + rewrite length_take. lia.
Qed.

Lemma moved_up st i :
  0 < i → i < length (currentFolders st) →
  ∃ l', moved i up st = Some (setCurrentFolders l' st, Some (activeRepo st)).
Proof.
  intros Hpos Hlt.
  destruct (split_at_pair (currentFolders st) (i - 1))
    as (pre & a & b & post & Hl & Hlen); [lia|].
  exists (pre ++ b :: a :: post). unfold moved. rewrite Hl.
  replace i with (S (length pre)) by lia.
  rewrite moveFolder_up, dense_fmap_Some. done.
Qed.

Lemma moved_down st i :
  i + 1 < length (currentFolders st) →
  ∃ l', moved i down st = Some (setCurrentFolders l' st, Some (activeRepo st)).
Proof.
  intros Hlt.
  destruct (split_at_pair (currentFolders st) i)
    as (pre & a & b & post & Hl & Hlen); [lia|].
  exists (pre ++ b :: a :: post). unfold moved. rewrite Hl, <- Hlen.
  rewrite moveFolder_down, dense_fmap_Some. done.
Qed.

(** A click that mutates is handled, and replaces the array of the
    active repo. *)
Lemma handle_mutation act st :
  mutates act st → ∃ st', handle act st = Some (st', Some (activeRepo st)).
Proof.
  destruct act; simpl; intros Hm; try done.
  - destruct Hm as (editing & data & He & Hne & Hd).
    unfold handleSave. rewrite He, Hd.
    apply String.eqb_neq in Hne. rewrite Hne. eauto.
  - unfold handleAddFolder. eauto.
  - apply String.eqb_neq in Hm. rewrite Hm. unfold handleDeleteFolder. eauto.
  - destruct Hm as [Hpos Hlt]. rewrite decide_True by done.
    destruct (moved_up st index Hpos Hlt) as [l' ->]. eauto.
  - rewrite decide_True by lia. rewrite bool_decide_true by lia.
    destruct (moved_down st index Hm) as [l' ->]. eauto.
Qed.

(** C9, as the page has it: a click that adds, edits, deletes or
    reorders a folder of the active repo is handled, and after it the
    save effect posts the whole resulting array, so that the store key of
    that repo holds exactly that array, provided the array is not empty;
    when the resulting array is empty, the effect sends nothing and the
    store is left as it was. *)
Theorem mutation_overwrites_whole_array act st s :
  mutates act st →
  ∃ st' s',
    click act (st, s) = Some (st', s') ∧
    let r := activeRepo st in
    (folders r st' ≠ [] →
     s' = <[structure_key r := structure_json (folders r st')]> s) ∧
    (folders r st' = [] → s' = s).
Proof.
  intros Hm. destruct (handle_mutation act st Hm) as [st' Hh].
  eexists st', _. split; [by apply click_touched|].
  cbv zeta. destruct (folders (activeRepo st) st') eqn:E; simpl; split; done.
Qed.

Lemma mutation_overwrites_whole_array_witness :
  let st := sample_page [sample_folder "Pages"; sample_folder "Hooks"] in
  ∃ st' s',
    click (ClickUp 1) (st, ∅) = Some (st', s') ∧
    uiFolders st' = [sample_folder "Hooks"; sample_folder "Pages"] ∧
    s' = {[ structure_key UI :=
              structure_json [sample_folder "Hooks"; sample_folder "Pages"] ]}.
Proof.
  intros st.
  destruct (mutation_overwrites_whole_array (ClickUp 1) st ∅)
    as (st' & s' & Hclick & Hsave & _); [simpl; lia|].
  exists st', s'. split; [done|].
  assert (uiFolders st' = [sample_folder "Hooks"; sample_folder "Pages"]) as Hui
    by (vm_compute in Hclick; by injection Hclick as <- _).
  split; [done|].
  simpl in Hsave. rewrite Hui in Hsave. by apply Hsave.
Defined.

(** C9, as stated, fails: deleting the only folder leaves the local
    array empty while the store still holds the folder. *)
Lemma delete_last_folder_not_saved :
  let st := sample_page [sample_folder "Pages"] in
  let s : store := {[ structure_key UI := structure_json [sample_folder "Pages"] ]} in
  ∃ st',
    click (ConfirmDelete "Pages") (st, s) = Some (st', s) ∧
    uiFolders st' = [] ∧
    kv_get (structure_key UI) s = Some (structure_json [sample_folder "Pages"]) ∧
    structure_json [sample_folder "Pages"] ≠ structure_json (uiFolders st').
Proof.
  intros st s. eexists. split; [by vm_compute|].
  split; [done|]. split; [by vm_compute|]. done.
Qed.

End structure_facts.

(** ** Global search *)

Section search_facts.
Import Server Search.

Implicit Types (s q t : text) (parts : list part).

Lemma toLowerCase_length s : length (toLowerCase s) = length s.
Proof. apply length_fmap. Qed.

Lemma toLowerCase_app s t : toLowerCase (s ++ t) = toLowerCase s ++ toLowerCase t.
Proof. apply fmap_app. Qed.

Lemma toLowerCase_drop n s : toLowerCase (drop n s) = drop n (toLowerCase s).
Proof. apply fmap_drop. Qed.

Lemma toLowerCase_take n s : toLowerCase (take n s) = take n (toLowerCase s).
Proof. apply fmap_take. Qed.

Lemma startsWith_true s q : startsWith s q = true ↔ ∃ post, s = q ++ post.
Proof.
  revert s. induction q as [|a q IH]; intros s; simpl.
  - split; [eauto|done].
  - destruct s as [|b s]; [split; [done|by intros [? ?]]|].
    rewrite andb_true_iff, bool_decide_eq_true, IH. split.
    + intros [-> [post ->]]. eauto.
    + intros [post Hp]. simplify_eq. eauto.
Qed.

Lemma startsWith_nil q : q ≠ [] → startsWith [] q = false.
Proof. by destruct q. Qed.

Lemma startsWith_length s q : startsWith s q = true → length q ≤ length s.
Proof.
  rewrite startsWith_true. intros [post ->]. rewrite length_app. lia.
Qed.

Lemma scan_Some q s k n :
  scan q s k = Some n →
  ∃ j, n = k + j ∧ j ≤ length s ∧ startsWith (drop j s) q = true
       ∧ ∀ j', j' < j → startsWith (drop j' s) q = false.
Proof.
  revert k. induction s as [|c s IH]; intros k; simpl.
  - destruct (startsWith [] q) eqn:E; [|done].
    intros [= <-]. exists 0. split_and!; [lia|done|done|lia].
  - destruct (startsWith (c :: s) q) eqn:E.
    + intros [= <-]. exists 0. split_and!; [lia|lia|done|lia].
    + intros H. destruct (IH _ H) as (j & -> & Hle & Hj & Hbefore).
      exists (S j). split_and!; [lia|lia|done|].
      intros [|j'] ?; [done|]. apply Hbefore. lia.
Qed.

Lemma scan_None q s k :
  scan q s k = None → ∀ j, startsWith (drop j s) q = false.
Proof.
  revert k. induction s as [|c s IH]; intros k; simpl.
  - destruct (startsWith [] q) eqn:E; [done|]. intros _ j. by rewrite drop_nil.
  - destruct (startsWith (c :: s) q) eqn:E; [done|].
    intros H [|j]; [done|]. simpl. by eapply IH.
Qed.

Lemma indexOf_Some s q p n :
  p ≤ length s → indexOf s q p = Some n →
  p ≤ n ∧ n ≤ length s ∧ startsWith (drop n s) q = true
  ∧ ∀ j, p ≤ j → j < n → startsWith (drop j s) q = false.
Proof.
  intros Hp. unfold indexOf. rewrite Nat.min_l by done.
  intros H. destruct (scan_Some _ _ _ _ H) as (j & -> & Hle & Hj & Hbefore).
  rewrite drop_drop in Hj. rewrite length_drop in Hle.
  split_and!; [lia|lia|done|].
  intros j' ? ?. replace j' with (p + (j' - p)) by lia.
  rewrite <- drop_drop. apply Hbefore. lia.
Qed.

Lemma indexOf_None s q p :
  p ≤ length s → indexOf s q p = None →
  ∀ j, p ≤ j → startsWith (drop j s) q = false.
Proof.
  intros Hp. unfold indexOf. rewrite Nat.min_l by done.
  intros H j ?. replace j with (p + (j - p)) by lia.
  rewrite <- drop_drop. by eapply scan_None.
Qed.

Lemma occurs_at_startsWith q s i :
  occurs_at q s i ↔
  i ≤ length s ∧ startsWith (drop i (toLowerCase s)) (toLowerCase q) = true.
Proof.
  rewrite startsWith_true. split.
  - intros (pre & mid & post & -> & <- & Hmid). split.
    + rewrite length_app. lia.
    + rewrite !toLowerCase_app, drop_app_length', Hmid
        by (by rewrite toLowerCase_length). eauto.
  - intros [Hi [post Hpost]].
    exists (take i s), (take (length q) (drop i s)), (drop (length q) (drop i s)).
    split_and!.
    + by rewrite !take_drop.
    + rewrite length_take. lia.
    + rewrite toLowerCase_take, toLowerCase_drop, Hpost.
      by rewrite take_app_length' by (by rewrite toLowerCase_length).
Qed.

Lemma occurs_at_fits q s i : occurs_at q s i → i + length q ≤ length s.
Proof.
  intros (pre & mid & post & -> & <- & Hmid).
  apply (f_equal length) in Hmid. rewrite !toLowerCase_length in Hmid.
  rewrite !length_app. lia.
Qed.

Lemma indexOf_first q s i :
  indexOf (toLowerCase s) (toLowerCase q) 0 = Some i ↔ first_occurrence q s i.
Proof.
  split.
  - intros H. apply indexOf_Some in H as (_ & Hle & Hi & Hbefore); [|lia].
    rewrite toLowerCase_length in Hle.
    split; [by apply occurs_at_startsWith|].
    intros j Hj [_ Hocc]%occurs_at_startsWith.
    rewrite Hbefore in Hocc by lia. done.
  - intros [[Hlt Hi]%occurs_at_startsWith Hbefore].
    destruct (indexOf (toLowerCase s) (toLowerCase q) 0) as [n|] eqn:E.
    + apply indexOf_Some in E as (_ & Hle & Hn & Hnone); [|lia].
      rewrite toLowerCase_length in Hle.
      destruct (Nat.lt_trichotomy n i) as [Hlt'|[->|Hgt]]; [|done|].
      * exfalso. apply (Hbefore n Hlt'). apply occurs_at_startsWith.
        split; [lia|done].
      * rewrite Hnone in Hi by lia. done.
    + eapply indexOf_None in E; [|lia|apply Nat.le_0_l]. by rewrite E in Hi.
Qed.

Lemma indexOf_absent q s :
  indexOf (toLowerCase s) (toLowerCase q) 0 = None ↔ absent q s.
Proof.
  split.
  - intros H i [_ Hocc]%occurs_at_startsWith.
    eapply indexOf_None in H; [|lia|apply Nat.le_0_l]. by rewrite H in Hocc.
  - intros Habs.
    destruct (indexOf (toLowerCase s) (toLowerCase q) 0) as [n|] eqn:E; [|done].
    apply indexOf_first in E as [Hocc _]. by apply Habs in Hocc.
Qed.

Lemma substring_slice s a b :
  a ≤ b → substring s a b = take (b - a) (drop a s).
Proof.
  intros Hab. unfold substring.
  destruct (decide (b ≤ length s)) as [Hb|Hb].
  - rewrite (Nat.min_l a), (Nat.min_l b) by lia.
    by rewrite Nat.max_r, Nat.min_l by lia.
  - rewrite (Nat.min_r b) by lia.
    destruct (decide (a ≤ length s)) as [Ha|Ha].
    + rewrite (Nat.min_l a) by lia. rewrite Nat.max_r, Nat.min_l by lia.
      rewrite !take_ge; [done|rewrite length_drop; lia..].
    + rewrite (Nat.min_r a) by lia. rewrite Nat.max_r, Nat.min_l by lia.
      rewrite !drop_ge by lia. by rewrite !take_nil.
Qed.

Lemma substring_from_drop s c : c ≤ length s → substring_from s c = drop c s.
Proof.
  intros Hc. unfold substring_from. rewrite substring_slice by done.
  apply take_ge. rewrite length_drop. lia.
Qed.

Lemma plain_drop s c :
  plain (drop c s) = if c <? length s then [Plain (drop c s)] else [].
Proof.
  unfold plain. destruct (c <? length s) eqn:E.
  - apply Nat.ltb_lt in E. destruct (drop c s) eqn:D; [|done].
    apply (f_equal length) in D. rewrite length_drop in D. simpl in D. lia.
  - apply Nat.ltb_ge in E. by rewrite drop_ge.
Qed.

Lemma plain_displayed s : displayed (plain s) = s.
Proof.
  unfold plain, displayed. destruct s; simpl; [done|]. by rewrite app_nil_r.
Qed.

Lemma displayed_app parts1 parts2 :
  displayed (parts1 ++ parts2) = displayed parts1 ++ displayed parts2.
Proof. unfold displayed. by rewrite fmap_app, concat_app. Qed.

Lemma displayed_cons x parts :
  displayed (x :: parts) = part_text x ++ displayed parts.
Proof. reflexivity. Qed.

Lemma scanned_displayed q k s parts : scanned q k s parts → displayed parts = s.
Proof.
  induction 1 as [k s _|k p m rest parts _ _ _ IH].
  - apply plain_displayed.
  - by rewrite displayed_app, plain_displayed, displayed_cons, IH.
Qed.

Lemma first_occurrence_span q p m rest :
  first_occurrence q (p ++ m ++ rest) (length p) → length m = length q →
  toLowerCase m = toLowerCase q.
Proof.
  intros [(pre & mid & post & Heq & Hlen & Hmid) _] Hm.
  apply app_inj_1 in Heq as [_ Heq]; [|done].
  apply app_inj_1 in Heq as [-> _]; [done|].
  apply (f_equal length) in Hmid. rewrite !toLowerCase_length in Hmid. lia.
Qed.

Lemma scanned_marks q k s parts : scanned q k s parts → marks_occurrences q parts.
Proof.
  induction 1 as [k s _|k p m rest parts Hfirst Hlen _ IH]; intros k' m' Hin.
  - unfold plain in Hin. destruct (nonempty s).
    + apply list_elem_of_singleton in Hin. done.
    + by apply elem_of_nil in Hin.
  - apply elem_of_app in Hin as [Hin|Hin].
    + unfold plain in Hin. destruct (nonempty p).
      * apply list_elem_of_singleton in Hin. done.
      * by apply elem_of_nil in Hin.
    + apply elem_of_cons in Hin as [[= -> ->]|Hin].
      * by eapply first_occurrence_span.
      * by eapply IH.
Qed.

Lemma occurs_at_drop q s c i :
  c ≤ length s → occurs_at q (drop c s) i ↔ occurs_at q s (c + i).
Proof.
  intros Hc. rewrite !occurs_at_startsWith.
  rewrite toLowerCase_drop, drop_drop, length_drop.
  split; intros [? ?]; split; try done; lia.
Qed.

Lemma scanned_cut q k k' s p m rest parts res :
  s = p ++ m ++ rest → res = plain p ++ Mark k m :: parts →
  k' = k + length p + length m →
  first_occurrence q s (length p) → length m = length q →
  scanned q k' rest parts → scanned q k s res.
Proof. intros -> -> ->. apply scanned_match. Qed.

(** The loop ends within [length s - c + 1] iterations when it starts at
    [c] and the search term is not empty, and what it has pushed by then
    cuts the rest of the snippet at the occurrences of the term. *)
Lemma highlight_scanned q s fuel c acc :
  q ≠ [] → c ≤ length s → length s - c < fuel →
  ∃ parts c',
    highlight fuel s (toLowerCase s) (toLowerCase q) (length q) acc c
              (indexOf (toLowerCase s) (toLowerCase q) c)
      = Some (acc ++ parts, c') ∧
    c' ≤ length s ∧
    scanned q c (drop c s) (parts ++ plain (drop c' s)).
Proof.
  intros Hq. revert c acc.
  induction fuel as [|fuel IH]; intros c acc Hc Hfuel; [lia|].
  destruct (indexOf (toLowerCase s) (toLowerCase q) c) as [si|] eqn:E.
  - apply indexOf_Some in E as (Hle & Hsi & Hhit & Hbefore);
      [|by rewrite toLowerCase_length].
    rewrite toLowerCase_length in Hsi.
    pose proof (startsWith_length _ _ Hhit) as Hfit.
    rewrite length_drop, !toLowerCase_length in Hfit.
    assert (0 < length q) by (destruct q; [done|simpl; lia]).
    cbn [highlight].
    set (acc' := (if c <? si then acc ++ [Plain (substring s c si)] else acc)
                 ++ [Mark c (substring s si (si + length q))]).
    destruct (IH (si + length q) acc') as (parts & c' & Hrun & Hc' & Hscan);
      [lia|lia|].
    exists ((if c <? si then [Plain (substring s c si)] else [])
            ++ Mark c (substring s si (si + length q)) :: parts), c'.
    split_and!; [|done|].
    + rewrite Hrun. f_equal. f_equal. unfold acc'.
      destruct (c <? si); by rewrite <- ?(assoc_L (++)).
    + rewrite !substring_slice by lia.
      replace (si + length q - si) with (length q) by lia.
      eapply (scanned_cut q c (si + length q) (drop c s)
                (take (si - c) (drop c s)) (take (length q) (drop si s))
                (drop (si + length q) s)).
      * rewrite <- (take_drop (si - c) (drop c s)) at 1. f_equal.
        rewrite drop_drop. replace (c + (si - c)) with si by lia.
        rewrite <- (take_drop (length q) (drop si s)) at 1.
        by rewrite drop_drop.
      * rewrite <- (assoc_L (++)). f_equal. unfold plain.
        destruct (c <? si) eqn:Hlt.
        -- apply Nat.ltb_lt in Hlt.
           destruct (take (si - c) (drop c s)) eqn:D; [|done].
           apply (f_equal length) in D.
           rewrite length_take, length_drop in D. simpl in D. lia.
        -- apply Nat.ltb_ge in Hlt. by replace (si - c) with 0 by lia.
      * rewrite !length_take, !length_drop. lia.
      * rewrite length_take, length_drop.
        replace ((si - c) `min` (length s - c)) with (si - c) by lia.
        split.
        -- apply occurs_at_drop; [done|]. replace (c + (si - c)) with si by lia.
           apply occurs_at_startsWith. done.
        -- intros j Hj Hocc. apply occurs_at_drop in Hocc; [|done].
           apply occurs_at_startsWith in Hocc as [_ Hocc].
           rewrite Hbefore in Hocc by lia. done.
      * rewrite length_take, length_drop. lia.
      * done.
  - exists [], c. split_and!; [by rewrite app_nil_r|done|].
    simpl. apply scanned_rest. intros i Hocc.
    apply occurs_at_drop in Hocc; [|done].
    apply occurs_at_startsWith in Hocc as [_ Hocc].
    eapply indexOf_None in E; [|by rewrite toLowerCase_length|].
    + by rewrite E in Hocc.
    + lia.
Qed.

Lemma snippet_window_length t q i : length (snippet_window t q i) ≤ length t + 6.
Proof.
  unfold snippet_window. rewrite !length_app, length_take, length_drop.
  assert (length ellipsis = 3) as He by reflexivity.
  destruct (0 <? i - 30), (_ <? length t); cbv iota; rewrite ?He;
    change (length (@nil ascii)) with 0; lia.
Qed.

Lemma getHighlightedSnippet_absent t q fuel maxLength :
  absent q t →
  getHighlightedSnippet fuel t q maxLength =
    Some (Text (take maxLength t
                ++ if maxLength <? length t then ellipsis else [])).
Proof.
  intros H%indexOf_absent. unfold getHighlightedSnippet. rewrite H.
  rewrite substring_slice by lia. by rewrite Nat.sub_0_r.
Qed.

Lemma getHighlightedSnippet_found t q i fuel maxLength :
  q ≠ [] → first_occurrence q t i → length t + 7 ≤ fuel →
  ∃ parts,
    getHighlightedSnippet fuel t q maxLength = Some (Fragment parts) ∧
    scanned q 0 (snippet_window t q i) parts.
Proof.
  intros Hq Hi Hfuel. pose proof (occurs_at_fits _ _ _ (proj1 Hi)) as Hfit.
  apply indexOf_first in Hi. unfold getHighlightedSnippet. rewrite Hi.
  cbv zeta.
  set (start := i - 30). set (stop := length t `min` (i + length q + 70)).
  assert (start ≤ stop) by (unfold start, stop; lia).
  assert ((if stop <? length t
           then (if 0 <? start then ellipsis ++ substring t start stop
                 else substring t start stop) ++ ellipsis
           else if 0 <? start then ellipsis ++ substring t start stop
                else substring t start stop) = snippet_window t q i) as ->.
  { unfold snippet_window. fold start stop.
    rewrite substring_slice by done.
    destruct (stop <? length t), (0 <? start); simpl;
      by rewrite ?app_nil_r, <- ?(assoc_L (++)). }
  pose proof (snippet_window_length t q i) as Hlen.
  destruct (highlight_scanned q (snippet_window t q i) fuel 0 [] Hq)
    as (parts & c' & Hrun & Hc' & Hscan); [lia|lia|].
  rewrite Hrun. cbn [mbind option_bind app].
  exists (parts ++ plain (drop c' (snippet_window t q i))). split; [|done].
  rewrite plain_drop, substring_from_drop by done.
  destruct (c' <? _); by rewrite ?app_nil_r.
Qed.

Lemma getHighlightedSnippet_returns t q fuel maxLength :
  q ≠ [] → length t + 7 ≤ fuel →
  is_Some (getHighlightedSnippet fuel t q maxLength).
Proof.
  intros Hq Hfuel.
  destruct (indexOf (toLowerCase t) (toLowerCase q) 0) as [i|] eqn:E.
  - apply indexOf_first in E.
    destruct (getHighlightedSnippet_found t q i fuel maxLength)
      as (parts & -> & _); done.
  - apply indexOf_absent in E. by rewrite getHighlightedSnippet_absent.
Qed.

Lemma indexOf_empty s : indexOf s [] 0 = Some 0.
Proof. unfold indexOf. simpl. by destruct s. Qed.

(** With an empty search term the loop never ends: each iteration finds
    the empty string where it stands. *)
Lemma highlight_empty_term s acc fuel :
  highlight fuel s (toLowerCase s) [] 0 acc 0 (Some 0) = None.
Proof.
  revert acc. induction fuel as [|fuel IH]; intros acc; [done|].
  cbn [highlight]. change (0 <? 0) with false. change (0 + 0) with 0.
  rewrite indexOf_empty. apply IH.
Qed.

Lemma getHighlightedSnippet_empty_term t fuel maxLength :
  getHighlightedSnippet fuel t [] maxLength = None.
Proof.
  unfold getHighlightedSnippet. change (toLowerCase []) with (@nil ascii).
  rewrite indexOf_empty. cbv zeta. rewrite indexOf_empty.
  change (length (@nil ascii)) with 0.
  by rewrite highlight_empty_term.
Qed.

(** X28: for a text [t] and a search term [q] of Latin-1 units, [q] not
    empty, when the first case-insensitive occurrence of [q] in [t] is at
    index [i],
    [getHighlightedSnippet] returns a fragment that displays the window
    [max(0, i - 30)] to [min(len(t), i + len(q) + 70)] of [t], after
    ["..."] exactly when the window starts after index 0 and before
    ["..."] exactly when it ends before [len(t)]; the fragment cuts this
    snippet at the case-insensitive occurrences of [q], taken from left to
    right without overlap, each one a highlight span holding the units of
    the text as they are.  When [q] does not occur in [t], it returns the
    first 100 units of [t], before ["..."] exactly when [t] is longer, as
    a plain string. *)
Theorem getHighlightedSnippet_window t q :
  q ≠ [] →
  (∀ i fuel, first_occurrence q t i → length t + 7 ≤ fuel →
     ∃ parts,
       getHighlightedSnippet fuel t q 100 = Some (Fragment parts) ∧
       displayed parts = snippet_window t q i ∧
       scanned q 0 (snippet_window t q i) parts ∧
       marks_occurrences q parts) ∧
  (∀ fuel, absent q t →
     getHighlightedSnippet fuel t q 100 =
       Some (Text (take 100 t ++ if 100 <? length t then ellipsis else []))).
Proof.
  intros Hq. split.
  - intros i fuel Hi Hfuel.
    destruct (getHighlightedSnippet_found t q i fuel 100 Hq Hi Hfuel)
      as (parts & Hrun & Hscan).
    exists parts. split_and!; [done| |done|].
    + by eapply scanned_displayed.
    + by eapply scanned_marks.
  - intros fuel Habs. by apply getHighlightedSnippet_absent.
Qed.

Lemma getHighlightedSnippet_window_witness :
  let t := txt "The quick brown fox jumps over the lazy dog" in
  ∃ parts,
    getHighlightedSnippet 50 t (txt "FOX") 100 = Some (Fragment parts) ∧
    displayed parts = t.
Proof.
  intros t.
  destruct (getHighlightedSnippet_window t (txt "FOX")) as [Hfound _];
    [done|].
  destruct (Hfound 16 50) as (parts & Hrun & Hshow & _ & _).
  - apply indexOf_first. by vm_compute.
  - vm_compute. lia.
  - exists parts. split; [done|]. rewrite Hshow. by vm_compute.
Defined.

(** The loop searches the snippet with its ellipses: a term made of
    dots also matches there. *)
Example dots_of_the_ellipses_are_matched :
  getHighlightedSnippet 200
    (concat (replicate 40 (txt "x")) ++ txt "." ++ concat (replicate 100 (txt "y")))
    (txt ".") 100
  = Some (Fragment [Mark 0 (txt "."); Mark 1 (txt "."); Mark 2 (txt ".");
                    Plain (concat (replicate 30 (txt "x"))); Mark 3 (txt ".");
                    Plain (concat (replicate 70 (txt "y")));
                    Mark 34 (txt "."); Mark 105 (txt "."); Mark 106 (txt ".")]).
Proof. by vm_compute. Qed.

(** A text of 200 units with the term at index 150: the window reaches
    the end of the text, and only the leading ellipsis appears. *)
Example window_reaching_the_end :
  getHighlightedSnippet 300
    (concat (replicate 150 (txt "x")) ++ txt "fox" ++ concat (replicate 47 (txt "y")))
    (txt "Fox") 100
  = Some (Fragment [Plain (txt "..." ++ concat (replicate 30 (txt "x")));
                    Mark 0 (txt "fox");
                    Plain (concat (replicate 47 (txt "y")))]).
Proof. by vm_compute. Qed.

(** A text of 300 units with the term at index 150: both ellipses. *)
Example window_inside_the_text :
  getHighlightedSnippet 400
    (concat (replicate 150 (txt "x")) ++ txt "fox" ++ concat (replicate 147 (txt "y")))
    (txt "Fox") 100
  = Some (Fragment [Plain (txt "..." ++ concat (replicate 30 (txt "x")));
                    Mark 0 (txt "fox");
                    Plain (concat (replicate 70 (txt "y")) ++ txt "...")]).
Proof. by vm_compute. Qed.

(** *** Matching *)

Lemma contains_occurs q s : contains q s = true ↔ ∃ i, occurs_at q s i.
Proof.
  unfold contains, includes. rewrite bool_decide_eq_true. split.
  - intros [i Hi]. exists i. by apply indexOf_first in Hi as [? _].
  - intros [i Hi].
    destruct (indexOf (toLowerCase s) (toLowerCase q) 0) eqn:E; [done|].
    apply indexOf_absent in E. by apply E in Hi.
Qed.

Lemma contains_absent q s : contains q s = false ↔ absent q s.
Proof.
  split.
  - intros H i Hi. assert (contains q s = true) by (apply contains_occurs; eauto).
    congruence.
  - intros H. destruct (contains q s) eqn:E; [|done].
    apply contains_occurs in E as [i Hi]. by apply H in Hi.
Qed.

Lemma contains_nonempty q s : q ≠ [] → contains q s = true → nonempty s = true.
Proof.
  intros Hq [i Hi%occurs_at_fits]%contains_occurs.
  destruct s; [|done]. destruct q; [done|]. simpl in Hi. lia.
Qed.

Lemma trim_nonempty q : trim q ≠ [] → q ≠ [].
Proof. by intros H ->. Qed.

Lemma snippet_of_returns t q : q ≠ [] → is_Some (snippet_of t q).
Proof.
  intros Hq. unfold snippet_of. destruct (nonempty t); [|done].
  destruct (getHighlightedSnippet_returns t q (snippet_fuel t) 100 Hq)
    as [n ->]; [unfold snippet_fuel; lia|done].
Qed.

Lemma snippet_of_absent t q : absent q t → snippet_of t q = Some (excerpt t).
Proof.
  intros H. unfold snippet_of, excerpt. destruct (nonempty t); [|done].
  by rewrite getHighlightedSnippet_absent.
Qed.

Lemma or_text_nil_r t : or_text t [] = t.
Proof. by destruct t. Qed.

Lemma nonempty_or_text t u : nonempty u = true → nonempty (or_text t u) = true.
Proof. by destruct t. Qed.

Lemma forEach_pushes {A} (matches : A → bool) rel step (l : list A) acc :
  pushes matches rel step →
  ∃ rs, forEach step l acc = Some (acc ++ rs)
        ∧ Forall2 rel (List.filter matches l) rs.
Proof.
  intros Hstep. revert acc. induction l as [|x l IH]; intros acc.
  - exists []. by rewrite app_nil_r.
  - destruct (Hstep acc x) as (rs1 & Hrun & Hrs).
    destruct (IH (acc ++ rs1)) as (rs2 & Hrest & Hall).
    exists (rs1 ++ rs2). cbn [forEach]. rewrite Hrun. cbn [mbind option_bind].
    rewrite Hrest, (assoc_L (++)). split; [done|].
    cbn [List.filter]. destruct (matches x).
    + destruct Hrs as (res & -> & Hres). by constructor.
    + by subst rs1.
Qed.

Lemma searchFolder_pushes r q :
  q ≠ [] → pushes (folder_matches q) (folder_result r) (searchFolder r q).
Proof.
  intros Hq acc f. unfold searchFolder, folder_matches.
  fold (contains q (folder_name f)) (contains q (folder_purpose f))
       (contains q (folder_description f)).
  set (matchedText := if contains q (folder_name f) then _ else _).
  destruct (snippet_of_returns matchedText q Hq) as [snippet Hsnippet].
  rewrite Hsnippet. cbn [mbind option_bind].
  assert (nonempty matchedText || contains q (folder_name f)
          = contains q (folder_name f) || contains q (folder_purpose f)
            || contains q (folder_description f)) as ->.
  { unfold matchedText.
    destruct (contains q (folder_name f)); [by rewrite orb_true_r|].
    destruct (contains q (folder_purpose f)) eqn:Ep;
      [by rewrite (contains_nonempty _ _ Hq Ep)|].
    destruct (contains q (folder_description f)) eqn:Ed;
      [by rewrite (contains_nonempty _ _ Hq Ed)|done]. }
  destruct (_ || _ || _).
  - eexists. split; [done|]. eexists. split; [done|]. by repeat split.
  - exists []. by rewrite app_nil_r.
Qed.

Lemma searchDocument_pushes toLocaleDateString q :
  pushes (document_matches q) document_result
         (searchDocument toLocaleDateString q).
Proof.
  intros acc d. unfold searchDocument, document_matches.
  fold (contains q (doc_name d)). destruct (contains q (doc_name d)).
  - eexists. split; [done|]. eexists. split; [done|]. by repeat split.
  - exists []. by rewrite app_nil_r.
Qed.

Lemma scanComments_found q comments :
  q ≠ [] →
  nonempty (scanComments (toLowerCase q) comments ([], [])).1
  = existsb (comment_matches q) comments.
Proof.
  intros Hq. induction comments as [|c comments IH]; [done|].
  cbn [scanComments existsb]. unfold comment_matches at 1, opt_contains.
  destruct (opt_includes (comment_message c) (toLowerCase q)) eqn:Em.
  - destruct (comment_message c) as [m|]; [|done]. simpl.
    by apply (contains_nonempty q m Hq).
  - destruct (opt_includes (comment_name c) (toLowerCase q)) eqn:En; [|done].
    cbn [fst orb]. by apply nonempty_or_text.
Qed.

Lemma scanComments_none q comments found :
  Forall (λ c, comment_matches q c = false) comments →
  scanComments (toLowerCase q) comments found = found.
Proof.
  induction 1 as [|c comments Hc _ IH]; [done|].
  cbn [scanComments]. unfold comment_matches, opt_contains in Hc.
  apply orb_false_iff in Hc as [-> ->]. done.
Qed.

Lemma searchDiscussion_pushes q :
  q ≠ [] → pushes (discussion_matches q) discussion_result (searchDiscussion q).
Proof.
  intros Hq acc d. unfold searchDiscussion, discussion_matches.
  fold (opt_contains q (disc_name d)) (opt_contains q (disc_message d)).
  set (found := match disc_comments d with Some _ => _ | None => _ end).
  destruct (snippet_of_returns found.1 q Hq) as [snippet Hsnippet].
  rewrite Hsnippet. cbn [mbind option_bind].
  assert (nonempty found.1
          = opt_contains q (disc_message d)
            || existsb (comment_matches q) (default [] (disc_comments d)))
    as Hfound.
  { unfold found, opt_contains.
    destruct (opt_includes (disc_message d) (toLowerCase q)) eqn:Em.
    - destruct (disc_message d) as [m|]; [|done]. simpl in Em.
      pose proof (contains_nonempty q m Hq Em) as Hm.
      destruct (disc_comments d); simpl; by rewrite ?Hm.
    - destruct (disc_comments d) as [comments|]; [|done].
      cbn [fst nonempty orb default]. by apply scanComments_found. }
  rewrite Hfound, orb_assoc.
  destruct (_ || _ || _).
  - eexists. split; [done|]. eexists. split; [done|]. by repeat split.
  - exists []. by rewrite app_nil_r.
Qed.

(** C2: a search term that is empty after trimming gives no results;
    any other term gives the first ten of the results of the matching
    UI folders, then of the matching API folders, then of the matching
    documents, then of the matching discussions, each collection in its
    array order. *)
Theorem search_first_ten (toLocaleDateString : text → text) q snap :
  (trim q = [] → search toLocaleDateString q snap = Some []) ∧
  (trim q ≠ [] →
   ∃ ui api docs discs,
     search toLocaleDateString q snap
       = Some (take 10 (ui ++ api ++ docs ++ discs)) ∧
     Forall2 (folder_result UI)
             (List.filter (folder_matches q) (uiFolders snap)) ui ∧
     Forall2 (folder_result API)
             (List.filter (folder_matches q) (apiFolders snap)) api ∧
     Forall2 document_result
             (List.filter (document_matches q) (documents snap)) docs ∧
     Forall2 discussion_result
             (List.filter (discussion_matches q) (discussions snap)) discs).
Proof.
  split; unfold search.
  - by intros ->.
  - intros Htrim. pose proof (trim_nonempty q Htrim) as Hq.
    destruct (trim q); [done|].
    destruct (forEach_pushes _ _ _ (uiFolders snap) []
                (searchFolder_pushes UI q Hq)) as (ui & -> & Hui).
    cbn [mbind option_bind].
    destruct (forEach_pushes _ _ _ (apiFolders snap) ([] ++ ui)
                (searchFolder_pushes API q Hq)) as (api & -> & Hapi).
    cbn [mbind option_bind].
    destruct (forEach_pushes _ _ _ (documents snap) (([] ++ ui) ++ api)
                (searchDocument_pushes toLocaleDateString q))
      as (docs & -> & Hdocs).
    cbn [mbind option_bind].
    destruct (forEach_pushes _ _ _ (discussions snap)
                ((([] ++ ui) ++ api) ++ docs)
                (searchDiscussion_pushes q Hq)) as (discs & -> & Hdiscs).
    cbn [mbind option_bind].
    exists ui, api, docs, discs. split_and!; try done.
    by rewrite app_nil_l, <- !(assoc_L (++)).
Qed.

Lemma search_first_ten_witness :
  search (λ d, d) (txt "  ") sample_snapshot = Some [] ∧
  ∃ rs, search (λ d, d) (txt "hook") sample_snapshot = Some rs ∧
        title <$> rs = [txt "Hooks"; txt "Tests"; txt "hooks.pdf"].
Proof.
  destruct (search_first_ten (λ d, d) (txt "  ") sample_snapshot) as [Hblank _].
  destruct (search_first_ten (λ d, d) (txt "hook") sample_snapshot)
    as [_ Hterm].
  split; [by apply Hblank|].
  destruct Hterm as (ui & api & docs & discs & Hrun & _); [done|].
  remember (take 10 (ui ++ api ++ docs ++ discs)) as rs eqn:E in Hrun.
  clear E. exists rs. split; [exact Hrun|].
  vm_compute in Hrun. injection Hrun as <-. by vm_compute.
Defined.

(** C3, as the search effect has it: an entity whose name (title)
    contains the term while none of its other searched fields does
    pushes one result.  For a document the result has no snippet and the
    upload date as descriptor; for a discussion it has no snippet and the
    comment count as descriptor.  For a folder the descriptor is the
    purpose, or the label of the repo when the purpose is empty, and the
    snippet is missing only when description and purpose are both empty:
    otherwise it is the first 100 units of the description, or of the
    purpose when the description is empty, before ["..."] when longer,
    as a plain string without highlight. *)
Theorem title_only_results (toLocaleDateString : text → text) q acc :
  (∀ r f,
     contains q (folder_name f) = true →
     contains q (folder_purpose f) = false →
     contains q (folder_description f) = false →
     ∃ res, searchFolder r q acc f = Some (acc ++ [res]) ∧
            folder_result r f res ∧
            description res = or_text (folder_purpose f) (folder_default r) ∧
            highlightedSnippet res
              = excerpt (or_text (folder_description f) (folder_purpose f))) ∧
  (∀ d,
     contains q (doc_name d) = true →
     ∃ res, searchDocument toLocaleDateString q acc d = Some (acc ++ [res]) ∧
            document_result d res ∧
            description res
              = txt "Uploaded " ++ toLocaleDateString (doc_uploadedAt d) ∧
            highlightedSnippet res = None) ∧
  (∀ d,
     opt_contains q (disc_name d) = true →
     opt_contains q (disc_message d) = false →
     Forall (λ c, comment_matches q c = false) (default [] (disc_comments d)) →
     ∃ res, searchDiscussion q acc d = Some (acc ++ [res]) ∧
            discussion_result d res ∧
            description res = comment_count d ++ txt " comments" ∧
            highlightedSnippet res = None).
Proof.
  split_and!.
  - intros r f Hn Hp Hd. unfold searchFolder.
    fold (contains q (folder_name f)). rewrite Hn, orb_true_r.
    rewrite or_text_nil_r.
    assert (absent q (or_text (folder_description f) (folder_purpose f))) as Habs.
    { apply contains_absent. by destruct (folder_description f). }
    rewrite (snippet_of_absent _ _ Habs). cbn [mbind option_bind].
    eexists. split; [done|]. by repeat split.
  - intros d Hn. unfold searchDocument. fold (contains q (doc_name d)).
    rewrite Hn. eexists. split; [done|]. by repeat split.
  - intros d Hn Hm Hc. unfold searchDiscussion.
    fold (opt_contains q (disc_name d)) (opt_contains q (disc_message d)).
    rewrite Hn, Hm.
    assert (match disc_comments d with
            | Some comments =>
                if nonempty ([] : text, [] : text).1 then ([], [])
                else scanComments (toLowerCase q) comments ([], [])
            | None => ([], [])
            end = ([] : text, [] : text)) as ->.
    { destruct (disc_comments d) as [comments|]; [|done].
      cbn [fst nonempty]. by apply scanComments_none. }
    cbn. eexists. split; [done|]. by repeat split.
Qed.

Lemma title_only_results_witness :
  let f := {| folder_name := txt "Hooks"; folder_purpose := [];
              folder_description := [] |} in
  let d := {| disc_id := txt "p1"; disc_name := Some (txt "Hooks in CI");
              disc_message := Some (txt "hello world");
              disc_comments := Some [ {| comment_name := Some (txt "Ann");
                                         comment_message := Some (txt "+1") |} ] |} in
  (∃ res, searchFolder UI (txt "hook") [] f = Some [res] ∧
          description res = txt "UI Test Automation Folder" ∧
          highlightedSnippet res = None) ∧
  (∃ res, searchDiscussion (txt "hook") [] d = Some [res] ∧
          description res = txt "1 comments" ∧
          highlightedSnippet res = None).
Proof.
  intros f d.
  destruct (title_only_results (λ x, x) (txt "hook") []) as (Hf & _ & Hd).
  split.
  - destruct (Hf UI f) as (res & Hrun & _ & Hdesc & Hsnip);
      [by vm_compute..|].
    exists res. by split_and!.
  - destruct (Hd d) as (res & Hrun & _ & Hdesc & Hsnip);
      [by vm_compute | by vm_compute | repeat constructor |].
    exists res. by split_and!.
Defined.

(** C3, as stated, fails: the term occurs in the name of this folder and
    neither in its purpose nor in its description, and its result
    carries the description as snippet. *)
Lemma title_only_folder_carries_snippet :
  let f := {| folder_name := txt "Hooks"; folder_purpose := [];
              folder_description := txt "Setup and teardown" |} in
  let snap := {| uiFolders := [f]; apiFolders := []; documents := [];
                 discussions := [] |} in
  contains (txt "hook") (folder_name f) = true ∧
  contains (txt "hook") (folder_purpose f) = false ∧
  contains (txt "hook") (folder_description f) = false ∧
  ∃ res, search (λ d, d) (txt "hook") snap = Some [res] ∧
         highlightedSnippet res = Some (Text (txt "Setup and teardown")).
Proof.
  intros f snap. split_and!; [by vm_compute..|].
  eexists. split; by vm_compute.
Qed.

End search_facts.

(** ** More on the REST handlers *)

Section server_more_facts.
Import Server.

Implicit Types (s : store) (l docs : list json) (o b p : gmap string json).

Lemma carries_id_has_id id x :
  is_record x → has_id id x = Return (carries_id id x).
Proof. by destruct x. Qed.

Lemma filter_out_records id l :
  Forall is_record l → filter_out id l = Return (without_id id l).
Proof.
  induction 1 as [|x l Hx _ IH]; [done|].
  cbn [filter_out]. rewrite (carries_id_has_id _ _ Hx), IH. simpl.
  unfold without_id. cbn [List.filter]. by destruct (carries_id id x).
Qed.

Lemma without_id_length id l : length (without_id id l) ≤ length l.
Proof. apply List.filter_length_le. Qed.

Lemma without_id_shorter id l o :
  JObj o ∈ l → o !! "id" = Some (JStr id) →
  length (without_id id l) < length l.
Proof.
  intros Hin Ho. induction l as [|x l IH]; [by apply elem_of_nil in Hin|].
  unfold without_id. cbn [List.filter].
  apply elem_of_cons in Hin as [<-|Hin].
  - simpl. apply id_is_true in Ho. rewrite Ho. simpl.
    pose proof (without_id_length id l). unfold without_id in *. lia.
  - specialize (IH Hin). unfold without_id in IH.
    destruct (negb (carries_id id x)); simpl; lia.
Qed.

Lemma without_id_clean id l : no_such_id id (without_id id l).
Proof.
  intros o Hin Ho. unfold without_id in Hin.
  apply list_elem_of_In, List.filter_In in Hin as [_ Hin].
  simpl in Hin. apply id_is_true in Ho. by rewrite Ho in Hin.
Qed.

Lemma without_id_records id l : Forall is_record l → Forall is_record (without_id id l).
Proof.
  rewrite !Forall_forall. intros H x Hin. apply H.
  unfold without_id in Hin.
  by apply list_elem_of_In, List.filter_In in Hin as [?%list_elem_of_In _].
Qed.

Lemma without_id_absent id l : no_such_id id l → without_id id l = l.
Proof.
  intros Hno. induction l as [|x l IH]; [done|].
  unfold without_id in *. cbn [List.filter].
  assert (carries_id id x = false) as ->.
  { destruct x; try done. simpl. apply id_is_false. apply Hno. by left. }
  simpl. f_equal. apply IH. intros o Ho. apply Hno. by right.
Qed.

Lemma without_id_app id l1 l2 :
  without_id id (l1 ++ l2) = without_id id l1 ++ without_id id l2.
Proof. apply List.filter_app. Qed.

Lemma collection_insert key l s :
  collection key (<[key := JArr l]> s) = Some l.
Proof. unfold collection, kv_get. by rewrite lookup_insert_eq. Qed.

Lemma delete_documents_found id s l o :
  collection documents_key s = Some l → Forall is_record l →
  JObj o ∈ l → o !! "id" = Some (JStr id) →
  delete_documents id s =
    (Response 200 (JObj {[ "message" := JStr "Document deleted successfully" ]}),
     <[documents_key := JArr (without_id id l)]> s).
Proof.
  intros Hc Hrec Hin Ho. unfold delete_documents, try_catch.
  rewrite (collection_js_or _ _ _ Hc). simpl.
  rewrite filter_out_records by done. simpl.
  pose proof (without_id_shorter id l o Hin Ho) as Hlt.
  apply Nat.lt_neq, Nat.eqb_neq in Hlt. by rewrite Hlt.
Qed.

Lemma delete_documents_absent id s l :
  collection documents_key s = Some l → Forall is_record l → no_such_id id l →
  delete_documents id s =
    (Response 404 (JObj {[ "error" := JStr "Document not found" ]}), s).
Proof.
  intros Hc Hrec Hno. unfold delete_documents, try_catch.
  rewrite (collection_js_or _ _ _ Hc). simpl.
  rewrite filter_out_absent by done. simpl. by rewrite Nat.eqb_refl.
Qed.

(** X1: DELETE /documents/:id, when a stored record has the id, answers
    200 and stores the collection without every record that has the id,
    the others in their order; no record with the id is left. *)
Theorem delete_documents_removes id s l o :
  collection documents_key s = Some l → Forall is_record l →
  JObj o ∈ l → o !! "id" = Some (JStr id) →
  delete_documents id s =
    (Response 200 (JObj {[ "message" := JStr "Document deleted successfully" ]}),
     <[documents_key := JArr (without_id id l)]> s) ∧
  no_such_id id (without_id id l) ∧
  (∀ x, x ∈ l → carries_id id x = false → x ∈ without_id id l).
Proof.
  intros Hc Hrec Hin Ho. split_and!.
  - by eapply delete_documents_found.
  - apply without_id_clean.
  - intros x Hx Hid. unfold without_id.
    apply list_elem_of_In, List.filter_In. split; [by apply list_elem_of_In|].
    by rewrite Hid.
Qed.

Lemma delete_documents_removes_witness :
  let a := JObj {[ "id" := JStr "d1" ]} in
  let b := JObj {[ "id" := JStr "d2" ]} in
  let s : store := {[ documents_key := JArr [a; b; a] ]} in
  (delete_documents "d1" s).2 = {[ documents_key := JArr [b] ]}.
Proof.
  intros a b s.
  destruct (delete_documents_removes "d1" s [a; b; a] {[ "id" := JStr "d1" ]})
    as (-> & _ & _).
  - reflexivity.
  - repeat constructor.
  - left.
  - reflexivity.
  - by vm_compute.
Defined.

(** X2: a second DELETE /documents/:id of the same id is answered 404
    and leaves the store as the first one left it, whether the first one
    found the id or not. *)
Theorem delete_documents_twice id s l :
  collection documents_key s = Some l → Forall is_record l →
  let s1 := (delete_documents id s).2 in
  delete_documents id s1 =
    (Response 404 (JObj {[ "error" := JStr "Document not found" ]}), s1).
Proof.
  intros Hc Hrec s1. subst s1.
  destruct (decide (Forall (λ x, carries_id id x = false) l)) as [Hall|Hsome].
  - assert (no_such_id id l) as Hno.
    { intros o Hin Ho. rewrite Forall_forall in Hall.
      specialize (Hall _ Hin). simpl in Hall. apply id_is_true in Ho. congruence. }
    rewrite (delete_documents_absent id s l) by done.
    by apply delete_documents_absent with l.
  - apply not_Forall_Exists in Hsome; [|intros x; apply _].
    apply Exists_exists in Hsome as (x & Hin & Hx).
    destruct x as [| | | | |o]; try (by destruct Hx). simpl in Hx.
    assert (o !! "id" = Some (JStr id)) as Ho.
    { apply id_is_true. by destruct (id_is id (o !! "id")). }
    rewrite (delete_documents_found id s l o) by done. simpl.
    apply delete_documents_absent with (without_id id l).
    + apply collection_insert.
    + by apply without_id_records.
    + apply without_id_clean.
Qed.

Lemma delete_documents_twice_witness :
  let a := JObj {[ "id" := JStr "d1" ]} in
  let s : store := {[ documents_key := JArr [a] ]} in
  status (delete_documents "d1" (delete_documents "d1" s).2).1 = 404%Z.
Proof.
  intros a s.
  rewrite (delete_documents_twice "d1" s [a]); [done|reflexivity|].
  repeat constructor.
Defined.

(** X3: DELETE /community/posts/:id, when a stored post has the id,
    answers 200 and stores the posts without every post that has the id,
    each with its comments; the other posts keep their content and
    order.  When no post has the id it answers 404 and writes nothing. *)
Theorem delete_posts_removes id s l :
  collection posts_key s = Some l → Forall is_record l →
  ((∃ o, JObj o ∈ l ∧ o !! "id" = Some (JStr id)) →
   delete_posts id s =
     (Response 200 (JObj {[ "message" := JStr "Post deleted successfully" ]}),
      <[posts_key := JArr (without_id id l)]> s) ∧
   no_such_id id (without_id id l) ∧
   (∀ x, x ∈ l → carries_id id x = false → x ∈ without_id id l)) ∧
  (no_such_id id l →
   delete_posts id s =
     (Response 404 (JObj {[ "error" := JStr "Post not found" ]}), s)).
Proof.
  intros Hc Hrec. split.
  - intros (o & Hin & Ho). split_and!.
    + unfold delete_posts, try_catch.
      rewrite (collection_js_or _ _ _ Hc). simpl.
      rewrite filter_out_records by done. simpl.
      pose proof (without_id_shorter id l o Hin Ho) as Hlt.
      apply Nat.lt_neq, Nat.eqb_neq in Hlt. by rewrite Hlt.
    + apply without_id_clean.
    + intros x Hx Hid. unfold without_id.
      apply list_elem_of_In, List.filter_In. split; [by apply list_elem_of_In|].
      by rewrite Hid.
  - intros Hno. unfold delete_posts, try_catch.
    rewrite (collection_js_or _ _ _ Hc). simpl.
    rewrite filter_out_absent by done. simpl. by rewrite Nat.eqb_refl.
Qed.

Lemma delete_posts_removes_witness :
  let p1 := JObj (<["comments" := JArr [JObj {[ "id" := JStr "c1" ]}]]>
                    {[ "id" := JStr "p1" ]}) in
  let p2 := JObj (<["comments" := JArr []]> {[ "id" := JStr "p2" ]}) in
  let s : store := {[ posts_key := JArr [p1; p2] ]} in
  (delete_posts "p1" s).2 = {[ posts_key := JArr [p2] ]} ∧
  (delete_posts "p3" s).2 = s.
Proof.
  intros p1 p2 s.
  destruct (delete_posts_removes "p1" s [p1; p2]) as [Hfound _];
    [reflexivity | repeat constructor |].
  destruct (delete_posts_removes "p3" s [p1; p2]) as [_ Habsent];
    [reflexivity | repeat constructor |].
  split.
  - destruct Hfound as (-> & _ & _); [|by vm_compute].
    eexists. split; [left|]. by vm_compute.
  - rewrite Habsent; [done|].
    intros o Ho. repeat (apply elem_of_cons in Ho as [Ho | Ho];
      [injection Ho as ->; by vm_compute |]).
    by apply elem_of_nil in Ho.
Defined.

(** X4: a document posted with a truthy [name] and [dataUrl] and then
    deleted by its generated id leaves the stored collection as it was,
    when the id is new to the collection. *)
Theorem post_then_delete_documents e b s docs :
  truthy (b !! "name") = true → truthy (b !! "dataUrl") = true →
  collection documents_key s = Some docs → Forall is_record docs →
  no_such_id (randomUUID e) docs →
  status (delete_documents (randomUUID e) (post_documents e (JObj b) s).2).1
    = 200%Z ∧
  (delete_documents (randomUUID e) (post_documents e (JObj b) s).2).2
    = <[documents_key := JArr docs]> s.
Proof.
  intros Hn Hd Hc Hrec Hfresh.
  destruct (b !! "name") as [name|] eqn:En; [|done].
  destruct (b !! "dataUrl") as [dataUrl|] eqn:Ed; [|done].
  rewrite (post_documents_accepted e b s docs name dataUrl) by done.
  cbn [snd].
  set (doc := new_document _ _ _ _ _ _ _ _).
  rewrite (delete_documents_found (randomUUID e) _ (docs ++ [JObj doc]) doc).
  - cbn [fst snd status]. split; [done|].
    rewrite insert_insert_eq, without_id_app, without_id_absent by done.
    unfold without_id. cbn [List.filter carries_id].
    unfold doc. rewrite new_document_lookup. simpl.
    by rewrite String.eqb_refl, app_nil_r.
  - apply collection_insert.
  - apply Forall_app. split; [done|]. by repeat constructor.
  - apply elem_of_app. right. left.
  - unfold doc. by rewrite new_document_lookup.
Qed.

Lemma post_then_delete_documents_witness :
  let e := Env "8c1f" "2026-01-01T00:00:00.000Z" in
  let b : gmap string json :=
    <["dataUrl" := JStr "data:text/plain;base64,eA=="]> {[ "name" := JStr "a.txt" ]} in
  let old := JObj {[ "id" := JStr "d0" ]} in
  let s : store := {[ documents_key := JArr [old] ]} in
  (delete_documents "8c1f" (post_documents e (JObj b) s).2).2 = s.
Proof.
  intros e b old s.
  destruct (post_then_delete_documents e b s [old]) as [_ H].
  - reflexivity.
  - reflexivity.
  - reflexivity.
  - repeat constructor.
  - intros o Ho. apply list_elem_of_singleton in Ho.
    injection Ho as ->. by vm_compute.
  - etrans; [exact H|]. by vm_compute.
Defined.

(** X5: PUT /documents/:id answers 404 and writes nothing when no stored
    record has the id, whatever the body. *)
Theorem put_documents_unknown id body s l :
  collection documents_key s = Some l → Forall is_record l → no_such_id id l →
  put_documents id body s =
    (Response 404 (JObj {[ "error" := JStr "Document not found" ]}), s).
Proof.
  intros Hc Hrec Hno. unfold put_documents, try_catch.
  rewrite (collection_js_or _ _ _ Hc). simpl.
  unfold findIndex. by rewrite findIndex_from_absent.
Qed.

Lemma put_documents_unknown_witness :
  let s : store := {[ documents_key := JArr [JObj {[ "id" := JStr "d0" ]}] ]} in
  put_documents "d1" (JObj {[ "isFavorite" := JBool true ]}) s =
    (Response 404 (JObj {[ "error" := JStr "Document not found" ]}), s).
Proof.
  intros s.
  apply (put_documents_unknown "d1" _ s [JObj {[ "id" := JStr "d0" ]}]).
  - reflexivity.
  - repeat constructor.
  - intros o Ho. apply list_elem_of_singleton in Ho.
    injection Ho as ->. by vm_compute.
Defined.

Lemma new_post_lookup e name message attachments k :
  new_post e name message attachments !! k =
    if decide (k = "comments") then Some (JArr [])
    else if decide (k = "attachments") then Some (js_or attachments (JArr []))
    else if decide (k = "timestamp") then Some (JStr (now e))
    else if decide (k = "message") then message
    else if decide (k = "name") then name
    else if decide (k = "id") then Some (JStr (randomUUID e))
    else None.
Proof.
  unfold new_post, set_prop.
  repeat (case_decide; [subst k;
    destruct name, message;
    repeat (rewrite lookup_insert_ne by done); by rewrite ?lookup_insert_eq |]).
  destruct name, message;
    repeat (rewrite lookup_insert_ne by done); by rewrite lookup_empty.
Qed.

Lemma new_comment_lookup e name message attachments k :
  new_comment e name message attachments !! k =
    if decide (k = "attachments") then Some (js_or attachments (JArr []))
    else if decide (k = "timestamp") then Some (JStr (now e))
    else if decide (k = "message") then message
    else if decide (k = "name") then name
    else if decide (k = "id") then Some (JStr (randomUUID e))
    else None.
Proof.
  unfold new_comment, set_prop.
  repeat (case_decide; [subst k;
    destruct name, message;
    repeat (rewrite lookup_insert_ne by done); by rewrite ?lookup_insert_eq |]).
  destruct name, message;
    repeat (rewrite lookup_insert_ne by done); by rewrite lookup_empty.
Qed.

(** X6: POST /community/posts with a truthy [name] and [message] appends
    one post at the end of the stored posts.  The post takes [name],
    [message] and [attachments] (an empty array when not supplied) from
    the body; its [id], its [timestamp] and its empty [comments] are set
    by the server, whatever the body holds under these or other keys. *)
Theorem post_posts_appends e b s posts name message :
  b !! "name" = Some name → truthy_json name = true →
  b !! "message" = Some message → truthy_json message = true →
  collection posts_key s = Some posts →
  ∃ post,
    post_posts e (JObj b) s =
      (Response 200 (JObj (<["message" := JStr "Post created successfully"]>
                             {[ "post" := JObj post ]})),
       <[posts_key := JArr (posts ++ [JObj post])]> s) ∧
    post !! "id" = Some (JStr (randomUUID e)) ∧
    post !! "timestamp" = Some (JStr (now e)) ∧
    post !! "comments" = Some (JArr []) ∧
    post !! "name" = Some name ∧ post !! "message" = Some message ∧
    post !! "attachments" = Some (js_or (b !! "attachments") (JArr [])) ∧
    (∀ k, post !! k ≠ None →
          k ∈ ["id"; "name"; "message"; "timestamp"; "attachments"; "comments"]).
Proof.
  intros Hn Tn Hm Tm Hc.
  exists (new_post e (Some name) (Some message) (b !! "attachments")).
  split_and!; try (by rewrite new_post_lookup).
  - unfold post_posts, try_catch. simpl. rewrite Hn, Hm. simpl.
    rewrite Tn, Tm. simpl. by rewrite (collection_js_or _ _ _ Hc).
  - intros k. rewrite new_post_lookup.
    repeat (case_decide; [subst k; intros _; set_solver|]). done.
Qed.

Lemma post_posts_appends_witness :
  let e := Env "8c1f" "2026-01-01T00:00:00.000Z" in
  let b : gmap string json :=
    <["id" := JStr "mine"]> (<["comments" := JArr [JStr "x"]]>
    (<["message" := JStr "hello world"]> {[ "name" := JStr "Ann" ]})) in
  ∃ post,
    (post_posts e (JObj b) ∅).2 = {[ posts_key := JArr [JObj post] ]} ∧
    post !! "id" = Some (JStr "8c1f") ∧ post !! "comments" = Some (JArr []).
Proof.
  intros e b.
  destruct (post_posts_appends e b ∅ [] (JStr "Ann") (JStr "hello world"))
    as (post & Hrun & Hid & _ & Hcs & _); [reflexivity..|].
  exists post. split_and!; [by rewrite Hrun|done|done].
Defined.

(** X7: POST /community/posts and POST /community/posts/:id/comments
    with a JSON object as body are answered 400 exactly when [name] or
    [message] is missing or falsy, and then nothing is written; for a
    comment the check comes before the post is looked up, so the answer
    is 400 also for an unknown post id. *)
Theorem posts_and_comments_validation e b s postId :
  (status (post_posts e (JObj b) s).1 = 400%Z ↔
   truthy (b !! "name") = false ∨ truthy (b !! "message") = false) ∧
  (status (post_comments e postId (JObj b) s).1 = 400%Z ↔
   truthy (b !! "name") = false ∨ truthy (b !! "message") = false) ∧
  (truthy (b !! "name") = false ∨ truthy (b !! "message") = false →
   (post_posts e (JObj b) s).2 = s ∧ (post_comments e postId (JObj b) s).2 = s).
Proof.
  unfold post_posts, post_comments, try_catch. simpl.
  destruct (truthy (b !! "name")), (truthy (b !! "message")); simpl.
  - split_and!.
    + split; [|by intros [|]].
      destruct (as_array _ _); simpl; done.
    + split; [|by intros [|]].
      destruct (as_array _ _) as [l|]; simpl; [|done].
      destruct (findIndex postId l) as [[i|]|]; simpl; try done.
      destruct (push_comment _ _); simpl; done.
    + by intros [|].
  - split_and!; try done; split; auto.
  - split_and!; try done; split; auto.
  - split_and!; try done; split; auto.
Qed.

Lemma posts_and_comments_validation_witness :
  let e := Env "8c1f" "2026-01-01T00:00:00.000Z" in
  let b : gmap string json :=
    <["message" := JStr ""]> {[ "name" := JStr "Ann" ]} in
  (post_posts e (JObj b) ∅).2 = ∅ ∧
  (post_comments e "nobody" (JObj b) ∅).2 = ∅.
Proof.
  intros e b.
  apply (posts_and_comments_validation e b ∅ "nobody"). right. reflexivity.
Defined.

Lemma push_comment_record o cs c :
  o !! "comments" = Some (JArr cs) →
  push_comment (JObj o) c = Return (JObj (<["comments" := JArr (cs ++ [c])]> o)).
Proof. intros H. unfold push_comment. simpl. by rewrite H. Qed.

(** X8: POST /community/posts/:id/comments with a truthy [name] and
    [message] appends one comment at the end of the comments of the
    first post that has the id; the comment has a generated [id] and the
    current time as [timestamp]; the other properties of that post, the
    other posts and their order are kept. *)
Theorem post_comments_appends e id b s pre o post cs name message :
  b !! "name" = Some name → truthy_json name = true →
  b !! "message" = Some message → truthy_json message = true →
  collection posts_key s = Some (pre ++ JObj o :: post) →
  Forall is_record pre → no_such_id id pre →
  o !! "id" = Some (JStr id) → o !! "comments" = Some (JArr cs) →
  ∃ c,
    post_comments e id (JObj b) s =
      (Response 200 (JObj (<["message" := JStr "Comment added successfully"]>
                             {[ "comment" := JObj c ]})),
       <[posts_key :=
           JArr (pre ++ JObj (<["comments" := JArr (cs ++ [JObj c])]> o) :: post)]> s) ∧
    c !! "id" = Some (JStr (randomUUID e)) ∧
    c !! "timestamp" = Some (JStr (now e)) ∧
    c !! "name" = Some name ∧ c !! "message" = Some message ∧
    c !! "attachments" = Some (js_or (b !! "attachments") (JArr [])).
Proof.
  intros Hn Tn Hm Tm Hc Hrec Hno Ho Hcs.
  exists (new_comment e (Some name) (Some message) (b !! "attachments")).
  split_and!; try (by rewrite new_comment_lookup).
  unfold post_comments, try_catch. simpl. rewrite Hn, Hm. simpl.
  rewrite Tn, Tm. simpl. rewrite (collection_js_or _ _ _ Hc). simpl.
  unfold findIndex. rewrite findIndex_from_first by done. simpl.
  rewrite lookup_middle. cbn [default].
  rewrite (push_comment_record _ _ _ Hcs). simpl.
  by rewrite insert_middle.
Qed.

Lemma post_comments_appends_witness :
  let e := Env "8c1f" "2026-01-01T00:00:00.000Z" in
  let b : gmap string json :=
    <["message" := JStr "me too"]> {[ "name" := JStr "Bob" ]} in
  let o : gmap string json :=
    <["comments" := JArr [JStr "c0"]]> {[ "id" := JStr "p1" ]} in
  let other := JObj (<["comments" := JArr []]> {[ "id" := JStr "p0" ]}) in
  let s : store := {[ posts_key := JArr [other; JObj o] ]} in
  ∃ c,
    (post_comments e "p1" (JObj b) s).2 =
      {[ posts_key :=
           JArr [other; JObj (<["comments" := JArr [JStr "c0"; JObj c]]> o)] ]} ∧
    c !! "name" = Some (JStr "Bob").
Proof.
  intros e b o other s.
  destruct (post_comments_appends e "p1" b s [other] o [] [JStr "c0"]
              (JStr "Bob") (JStr "me too"))
    as (c & Hrun & _ & _ & Hname & _);
    [reflexivity | reflexivity | reflexivity | reflexivity | reflexivity
    | repeat constructor | | reflexivity | reflexivity |].
  - intros x Hx. apply list_elem_of_singleton in Hx.
    injection Hx as ->. by vm_compute.
  - exists c. split; [|done]. rewrite Hrun. cbn [snd].
    unfold s. by rewrite insert_singleton_eq.
Defined.

(** X9: POST /structure/ui and POST /structure/api store whatever truthy
    value the body holds under [structure], an empty array included, and
    the GET of the same repo then answers with that value, while the
    other repo reads as before; when [structure] is missing or falsy the
    answer is 400 and nothing is written. *)
Theorem structure_round_trip r b s :
  (∀ v, b !! "structure" = Some v → truthy_json v = true →
     let s' := (post_structure r (JObj b) s).2 in
     status (post_structure r (JObj b) s).1 = 200%Z ∧
     get_structure r s' = (Response 200 (JObj {[ "structure" := v ]}), s') ∧
     (∀ r', r' ≠ r → (get_structure r' s').1 = (get_structure r' s).1)) ∧
  (truthy (b !! "structure") = false →
     status (post_structure r (JObj b) s).1 = 400%Z ∧
     (post_structure r (JObj b) s).2 = s).
Proof.
  split.
  - intros v Hv Tv. unfold post_structure, try_catch. simpl.
    rewrite Hv, Tv. simpl. split_and!; [done| |].
    + unfold get_structure, try_catch, kv_get, kv_set.
      rewrite lookup_insert_eq. simpl. by rewrite Tv.
    + intros r' Hr. unfold get_structure, try_catch, kv_get, kv_set.
      rewrite lookup_insert_ne; [done|]. by destruct r, r'.
  - intros Hf. unfold post_structure, try_catch. simpl.
    destruct (b !! "structure") as [v|]; [|done].
    simpl in Hf. by rewrite Hf.
Qed.

Lemma structure_round_trip_witness :
  let b : gmap string json := {[ "structure" := JArr [] ]} in
  let s : store := {[ structure_key UI := JArr [JStr "old"] ]} in
  (get_structure UI (post_structure UI (JObj b) s).2).1
    = Response 200 (JObj {[ "structure" := JArr [] ]}) ∧
  (post_structure UI (JObj {[ "structure" := JStr "" ]}) s).2 = s.
Proof.
  intros b s. split.
  - destruct (structure_round_trip UI b s) as [Hok _].
    destruct (Hok (JArr [])) as (_ & -> & _); done.
  - destruct (structure_round_trip UI {[ "structure" := JStr "" ]} s) as [_ Hbad].
    by destruct Hbad as [_ ->].
Defined.

Ltac handler_cases :=
  repeat (simpl;
    match goal with
    | |- context [bind (get_prop ?v ?k) _] =>
        first [ is_var v; destruct v | change (get_prop v k) with (@Return (option json) None) ]
    | |- context [bind (as_array ?w ?v) _] => destruct (as_array w v) eqn:?
    | |- context [bind (filter_out ?i ?l) _] => destruct (filter_out i l) eqn:?
    | |- context [bind (findIndex ?i ?l) _] => destruct (findIndex i l) as [[?|]|] eqn:?
    | |- context [bind (push_comment ?p ?c) _] => destruct (push_comment p c) eqn:?
    | |- context [if ?b then _ else _] => destruct b eqn:?
    | |- context [match ?o !! ?k with _ => _ end] => destruct (o !! k) eqn:?
    end).

Ltac handler_done :=
  split; [unfold known_status; simpl; auto
         | first [ by left
                 | right; split; [done|]; by eexists _, _ ] ].

Lemma app_writes_only e c : writes_only (key_of c) (app e c).
Proof.
  intros s. destruct c; simpl app; simpl key_of;
    unfold get_health, get_documents, post_documents, delete_documents,
      put_documents, get_structure, post_structure, get_posts, post_posts,
      post_comments, delete_posts, try_catch, kv_set;
    handler_cases; handler_done.
Qed.

(** X10: whatever the request, a handler changes the store at most under
    the key of its own collection: every other key reads as before, and
    the GET routes and the health check change nothing. *)
Theorem app_frame e c s :
  (∀ k, key_of c ≠ Some k → (app e c s).2 !! k = s !! k) ∧
  (match c with
   | GET_health | GET_documents | GET_structure _ | GET_posts => (app e c s).2 = s
   | _ => True
   end).
Proof.
  split.
  - intros k Hk. destruct (app_writes_only e c s) as [_ [->|(_ & k' & v & Hkey & ->)]];
      [done|]. rewrite lookup_insert_ne; [done|]. congruence.
  - destruct c; try done; unfold app, get_health, get_documents, get_structure,
      get_posts, try_catch; done.
Qed.

Lemma app_frame_witness :
  let e := Env "8c1f" "2026-01-01T00:00:00.000Z" in
  let s : store := {[ posts_key := JArr [JStr "kept"] ]} in
  (app e (DELETE_documents "d1") s).2 !! posts_key = Some (JArr [JStr "kept"]).
Proof.
  intros e s.
  destruct (app_frame e (DELETE_documents "d1") s) as [H _].
  rewrite H; done.
Defined.

(** X11: every answer has the status 200, 400, 404 or 500, and an answer
    other than 200 comes with no write: the store is the one the request
    found. *)
Theorem app_failure_writes_nothing e c s :
  known_status (app e c s).1 ∧
  (status (app e c s).1 ≠ 200%Z → (app e c s).2 = s).
Proof.
  destruct (app_writes_only e c s) as [Hst [Hs|(H200 & _)]]; split; try done.
Qed.

Lemma app_failure_writes_nothing_witness :
  let e := Env "8c1f" "2026-01-01T00:00:00.000Z" in
  let s : store := {[ documents_key := JArr [JNull] ]} in
  (app e (PUT_documents "d1" (JObj ∅)) s).2 = s.
Proof.
  intros e s. apply (app_failure_writes_nothing e _ s). by vm_compute.
Defined.

Lemma as_array_not_array what v :
  (∀ l, v ≠ JArr l) → ∃ msg, as_array what v = Throw msg.
Proof. intros H. destruct v; simpl; eauto. by destruct (H l). Qed.

(** X12: when the store holds, under the key of the documents or of the
    posts, a truthy value that is not an array, the GET route hands that
    value out with status 200, while the routes that add to, update or
    delete from the collection answer 500 and leave the store, and so
    the value, as it is. *)
Theorem stored_value_not_an_array e id b s v key :
  kv_get key s = Some v → truthy_json v = true → (∀ l, v ≠ JArr l) →
  (key = documents_key →
   get_documents s = (Response 200 (JObj {[ "documents" := v ]}), s) ∧
   (truthy (b !! "name") = true → truthy (b !! "dataUrl") = true →
    status (post_documents e (JObj b) s).1 = 500%Z ∧
    (post_documents e (JObj b) s).2 = s) ∧
   (status (delete_documents id s).1 = 500%Z ∧
    (delete_documents id s).2 = s) ∧
   (status (put_documents id (JObj b) s).1 = 500%Z ∧
    (put_documents id (JObj b) s).2 = s)) ∧
  (key = posts_key →
   get_posts s = (Response 200 (JObj {[ "posts" := v ]}), s) ∧
   (truthy (b !! "name") = true → truthy (b !! "message") = true →
    (status (post_posts e (JObj b) s).1 = 500%Z ∧
     (post_posts e (JObj b) s).2 = s) ∧
    (status (post_comments e id (JObj b) s).1 = 500%Z ∧
     (post_comments e id (JObj b) s).2 = s)) ∧
   (status (delete_posts id s).1 = 500%Z ∧
    (delete_posts id s).2 = s)).
Proof.
  intros Hv Tv Hna.
  assert (∀ d, js_or (kv_get key s) d = v) as Hor
    by (intros d; rewrite Hv; simpl; by rewrite Tv).
  split; intros ->.
  - split; [|split; [|split]].
    + unfold get_documents, try_catch. by rewrite Hor.
    + intros Hn Hd. unfold post_documents, try_catch. simpl.
      rewrite Hn, Hd, Hor. simpl.
      by destruct (as_array_not_array "documents.push" v Hna) as [msg ->].
    + unfold delete_documents, try_catch. rewrite Hor.
      by destruct (as_array_not_array "documents.filter" v Hna) as [msg ->].
    + unfold put_documents, try_catch. rewrite Hor.
      by destruct (as_array_not_array "documents.findIndex" v Hna) as [msg ->].
  - split; [|split].
    + unfold get_posts, try_catch. by rewrite Hor.
    + intros Hn Hm. unfold post_posts, post_comments, try_catch. simpl.
      rewrite Hn, Hm, Hor. simpl.
      destruct (as_array_not_array "posts.push" v Hna) as [msg ->].
      by destruct (as_array_not_array "posts.findIndex" v Hna) as [msg' ->].
    + unfold delete_posts, try_catch. rewrite Hor.
      by destruct (as_array_not_array "posts.filter" v Hna) as [msg ->].
Qed.

Lemma stored_value_not_an_array_witness :
  let e := Env "8c1f" "2026-01-01T00:00:00.000Z" in
  let s : store := {[ documents_key := JObj ∅ ]} in
  get_documents s = (Response 200 (JObj {[ "documents" := JObj ∅ ]}), s) ∧
  status (delete_documents "d1" s).1 = 500%Z ∧
  (delete_documents "d1" s).2 = s.
Proof.
  intros e s.
  destruct (stored_value_not_an_array e "d1" ∅ s (JObj ∅) documents_key)
    as [Hdocs _]; [reflexivity | reflexivity | done |].
  destruct Hdocs as (Hget & _ & [Hdel Hkept] & _); done.
Defined.

End server_more_facts.

(** ** The documents page *)

Section documents_page_facts.
Import Server Api DocumentsPage.

Lemma slice_in_range {A} (l : list A) (a b : nat) :
  slice l (Z.of_nat a) (Z.of_nat b) = take (b `min` length l - a) (drop a l).
Proof.
  unfold slice.
  rewrite (proj2 (Z.ltb_ge _ _)), (proj2 (Z.ltb_ge _ _)) by lia.
  destruct (decide (a ≤ length l)) as [Ha|Ha].
  - rewrite (Z.min_l (Z.of_nat a)) by lia. rewrite Nat2Z.id. f_equal. lia.
  - rewrite (Z.min_r (Z.of_nat a)) by lia. rewrite Nat2Z.id.
    rewrite !drop_ge by lia. by rewrite !take_nil.
Qed.

Lemma page_take_drop {A} (l : list A) (p : nat) :
  paginatedDocuments l (Z.of_nat (S p)) = take 12 (drop (12 * p) l).
Proof.
  unfold paginatedDocuments, ITEMS_PER_PAGE.
  replace ((Z.of_nat (S p) - 1) * 12)%Z with (Z.of_nat (12 * p)) by lia.
  replace (Z.of_nat (12 * p) + 12)%Z with (Z.of_nat (12 * p + 12)) by lia.
  rewrite slice_in_range.
  destruct (decide (12 * p + 12 ≤ length l)).
  - f_equal. lia.
  - rewrite Nat.min_r by lia. rewrite !take_ge; [done|rewrite length_drop; lia..].
Qed.

Lemma pages_concat {A} (l : list A) (k : nat) :
  concat ((λ p, paginatedDocuments l (Z.of_nat (S p))) <$> seq 0 k)
  = take (12 * k) l.
Proof.
  induction k as [|k IH]; [done|].
  rewrite seq_S, fmap_app, concat_app, IH. simpl.
  rewrite app_nil_r, page_take_drop, take_take_drop. f_equal. lia.
Qed.

Lemma totalPages_spec {A} (l : list A) :
  (0 ≤ totalPages l)%Z ∧
  12 * Z.to_nat (totalPages l) < length l + 12 ∧
  length l ≤ 12 * Z.to_nat (totalPages l).
Proof.
  unfold totalPages, ITEMS_PER_PAGE.
  pose proof (Z.div_mod (Z.of_nat (length l) + 12 - 1) 12) as Hdm.
  pose proof (Z.mod_pos_bound (Z.of_nat (length l) + 12 - 1) 12).
  assert (0 ≤ (Z.of_nat (length l) + 12 - 1) / 12)%Z
    by (apply Z.div_pos; lia).
  lia.
Qed.

(** X13: the pages of the documents page cut the filtered list into
    consecutive stretches: put one after the other, the pages 1 to
    [totalPages] give the list back; each of them holds between 1 and 12
    documents, and a page after the last one is empty. *)
Theorem pages_partition {A} (l : list A) :
  concat ((λ p, paginatedDocuments l (Z.of_nat (S p)))
            <$> seq 0 (Z.to_nat (totalPages l))) = l ∧
  (∀ p : Z, (1 ≤ p ≤ totalPages l)%Z →
     1 ≤ length (paginatedDocuments l p) ≤ 12) ∧
  (∀ p : Z, (totalPages l < p)%Z → paginatedDocuments l p = []).
Proof.
  destruct (totalPages_spec l) as (Hpos & Hlt & Hle). split_and!.
  - rewrite pages_concat. by apply take_ge.
  - intros p Hp. replace p with (Z.of_nat (S (Z.to_nat p - 1))) by lia.
    rewrite page_take_drop, length_take, length_drop. lia.
  - intros p Hp. replace p with (Z.of_nat (S (Z.to_nat p - 1))) by lia.
    rewrite page_take_drop, drop_ge; [done|]. lia.
Qed.

Lemma pages_partition_witness :
  let l := seq 0 30 in
  1 ≤ length (paginatedDocuments l 3) ≤ 12 ∧ paginatedDocuments l 4 = [].
Proof.
  intros l. destruct (pages_partition l) as (_ & Hlen & Hpast). split.
  - apply Hlen. by vm_compute.
  - apply Hpast. by vm_compute.
Defined.

(** X14: a click in the pagination bar never leaves the pages: from a
    current page between 1 and [totalPages], every button that can be
    clicked sets a page between 1 and [totalPages]; previous and next
    move by exactly one page. *)
Theorem press_stays_in_range {A} (l : list A) b cur cur' :
  (1 ≤ cur ≤ totalPages l)%Z → press l b cur = Some cur' →
  (1 ≤ cur' ≤ totalPages l)%Z ∧
  (b = Previous → cur' = (cur - 1)%Z) ∧ (b = Next → cur' = (cur + 1)%Z).
Proof.
  intros Hcur. unfold press.
  destruct (1 <? totalPages l)%Z eqn:E; [|done]. apply Z.ltb_lt in E.
  destruct b.
  - destruct (cur =? 1)%Z eqn:E1; [done|]. apply Z.eqb_neq in E1.
    intros [= <-]. split_and!; try done; lia.
  - destruct (cur =? totalPages l)%Z eqn:E1; [done|]. apply Z.eqb_neq in E1.
    intros [= <-]. split_and!; try done; lia.
  - destruct (_ && _ && _) eqn:Ev; [|done]. intros [= <-].
    apply andb_true_iff in Ev as [[?%Z.leb_le ?%Z.leb_le]%andb_true_iff _].
    split_and!; try done; lia.
Qed.

Lemma press_stays_in_range_witness :
  press (seq 0 30) Next 2 = Some 3%Z ∧ press (seq 0 30) Next 3 = None.
Proof.
  split; [|done].
  destruct (press (seq 0 30) Next 2) as [cur'|] eqn:E; [|by vm_compute in E].
  destruct (press_stays_in_range (seq 0 30) Next 2 cur') as (_ & _ & Hnext).
  - by vm_compute.
  - exact E.
  - by rewrite Hnext.
Defined.

Lemma put_documents_found d p s pre o post :
  collection documents_key s = Some (pre ++ JObj o :: post) →
  Forall is_record pre → no_such_id d pre → o !! "id" = Some (JStr d) →
  put_documents d (JObj p) s =
    (Response 200
       (JObj (<["message" := JStr "Document updated successfully"]>
                {[ "document" := JObj (<["id" := JStr d]> (p ∪ o)) ]})),
     <[documents_key := JArr (pre ++ JObj (<["id" := JStr d]> (p ∪ o)) :: post)]> s).
Proof.
  intros Hc Hrec Hno Ho. unfold put_documents, try_catch.
  rewrite (collection_js_or _ _ _ Hc). simpl.
  unfold findIndex. rewrite findIndex_from_first by done. simpl.
  rewrite lookup_middle. simpl. by rewrite insert_middle.
Qed.

Lemma loadDocuments_array s l :
  kv_get documents_key s = Some (JArr l) →
  loadDocuments s = (Some (Some (JArr l)), s).
Proof.
  intros H. unfold loadDocuments, documentsAPI_getAll, fetch, get_documents,
    try_catch. rewrite H. simpl. unfold data. simpl.
  by rewrite lookup_singleton_eq.
Qed.

Lemma toggleFavorite_found d fav s pre o post :
  kv_get documents_key s = Some (JArr (pre ++ JObj o :: post)) →
  Forall is_record pre → no_such_id d pre → o !! "id" = Some (JStr d) →
  let o' := <["id" := JStr d]>
              ({[ "isFavorite" := JBool (negb (truthy fav)) ]} ∪ o) in
  toggleFavorite d fav s =
    (Some (Some (JArr (pre ++ JObj o' :: post))),
     <[documents_key := JArr (pre ++ JObj o' :: post)]> s).
Proof.
  intros Hs Hrec Hno Ho o'. unfold toggleFavorite, documentsAPI_update, fetch.
  rewrite (put_documents_found d _ s pre o post); try done.
  - cbn [fst snd ok status]. simpl.
    apply loadDocuments_array. unfold kv_get. by rewrite lookup_insert_eq.
  - unfold collection. by rewrite Hs.
Qed.

(** X15: toggling the favourite flag of a stored document stores the
    negated flag and leaves its other properties, the other documents
    and their order as they are; the page then shows the stored list.
    Toggling again, from what the page shows, brings the store back to
    what it was. *)
Theorem toggleFavorite_twice d s pre o post f :
  kv_get documents_key s = Some (JArr (pre ++ JObj o :: post)) →
  Forall is_record pre → no_such_id d pre →
  o !! "id" = Some (JStr d) → o !! "isFavorite" = Some (JBool f) →
  ∃ o1 s1,
    toggleFavorite d (o !! "isFavorite") s
      = (Some (Some (JArr (pre ++ JObj o1 :: post))), s1) ∧
    s1 = <[documents_key := JArr (pre ++ JObj o1 :: post)]> s ∧
    o1 !! "isFavorite" = Some (JBool (negb f)) ∧
    (∀ k, k ≠ "isFavorite" → o1 !! k = o !! k) ∧
    toggleFavorite d (o1 !! "isFavorite") s1
      = (Some (Some (JArr (pre ++ JObj o :: post))), s).
Proof.
  intros Hs Hrec Hno Ho Hf.
  eexists _, _. split; [by apply toggleFavorite_found|].
  split; [reflexivity|]. rewrite Hf. simpl.
  set (o1 := <["id" := JStr d]> ({[ "isFavorite" := JBool (negb f) ]} ∪ o)).
  assert (o1 !! "isFavorite" = Some (JBool (negb f))) as Hf1.
  { unfold o1. rewrite lookup_insert_ne by done.
    by rewrite lookup_union, lookup_singleton_eq, Hf. }
  assert (∀ k, k ≠ "isFavorite" → o1 !! k = o !! k) as Hother.
  { intros k Hk. unfold o1. destruct (decide (k = "id")) as [->|Hid].
    - by rewrite lookup_insert_eq.
    - rewrite lookup_insert_ne by done.
      rewrite lookup_union, lookup_singleton_ne by done.
      by destruct (o !! k). }
  split_and!; [done|done|].
  rewrite (toggleFavorite_found d _ _ pre o1 post); try done.
  - rewrite Hf1. simpl. rewrite negb_involutive.
    assert (<["id" := JStr d]> ({[ "isFavorite" := JBool f ]} ∪ o1) = o) as ->.
    { apply map_eq. intros k. destruct (decide (k = "id")) as [->|Hid].
      - by rewrite lookup_insert_eq.
      - rewrite lookup_insert_ne by done. rewrite lookup_union.
        destruct (decide (k = "isFavorite")) as [->|Hk].
        + rewrite lookup_singleton_eq, Hf1, Hf. done.
        + rewrite lookup_singleton_ne by done. rewrite (Hother k Hk).
          by destruct (o !! k). }
    rewrite insert_insert_eq. f_equal. by apply insert_id.
  - unfold kv_get. by rewrite lookup_insert_eq.
  - by rewrite Hother.
Qed.

Lemma toggleFavorite_twice_witness :
  let o : gmap string json :=
    <["isFavorite" := JBool false]> (<["name" := JStr "a.txt"]> {[ "id" := JStr "d1" ]}) in
  let s : store := {[ documents_key := JArr [JObj o] ]} in
  ∃ o1 s1,
    (toggleFavorite "d1" (Some (JBool false)) s).2 = s1 ∧
    o1 !! "isFavorite" = Some (JBool true) ∧
    s1 = {[ documents_key := JArr [JObj o1] ]} ∧
    (toggleFavorite "d1" (o1 !! "isFavorite") s1).2 = s.
Proof.
  intros o s.
  destruct (toggleFavorite_twice "d1" s [] o [] false)
    as (o1 & s1 & Hrun & Hs1 & Hf1 & _ & Hback);
    [reflexivity | constructor | | reflexivity | reflexivity |].
  - intros x Hx. by apply elem_of_nil in Hx.
  - exists o1, s1. split_and!.
    + change (Some (JBool false)) with (o !! "isFavorite"). by rewrite Hrun.
    + exact Hf1.
    + rewrite Hs1. unfold s. by rewrite insert_singleton_eq.
    + by rewrite Hback.
Defined.

End documents_page_facts.

(** ** The rich text editor *)

Section editor_facts.
Import Search RichTextEditor.

Implicit Types (value before after inserted : text).

Lemma substring_prefix value n : substring value 0 n = take n value.
Proof. rewrite substring_slice by lia. by rewrite Nat.sub_0_r. Qed.

Lemma substring_from_suffix value n : substring_from value n = drop n value.
Proof.
  destruct (decide (n ≤ length value)); [by apply substring_from_drop|].
  unfold substring_from, substring. cbv zeta.
  rewrite (Nat.min_r n), Nat.min_id by lia.
  rewrite Nat.min_id, Nat.max_id, Nat.sub_diag.
  by rewrite (drop_ge value n) by lia.
Qed.

Lemma three_pieces value start stop :
  start ≤ stop →
  take start value ++ take (stop - start) (drop start value) ++ drop stop value
  = value.
Proof.
  intros H. rewrite (assoc_L (++)), take_take_drop.
  replace (start + (stop - start)) with stop by lia. apply take_drop.
Qed.

(** X16: [insertFormatting] puts the two markers around the selected
    text and loses nothing: for a selection with [start <= end], the new
    text is [a ++ before ++ m ++ after ++ z] where [a ++ m ++ z] is the
    old text; when the selection lies inside the text, [a] is what came
    before it, [m] the selected text, and the cursor is set right after
    [m], in front of the closing marker. *)
Theorem insertFormatting_keeps_text value start stop before after :
  start ≤ stop →
  ∃ a m z,
    insertFormatting value (Some (start, stop)) before after
      = Some (a ++ before ++ m ++ after ++ z, start + length before + length m) ∧
    a ++ m ++ z = value ∧
    (stop ≤ length value →
     length a = start ∧ length m = stop - start ∧
     start + length before + length m = length (a ++ before ++ m)).
Proof.
  intros H.
  exists (take start value), (take (stop - start) (drop start value)),
         (drop stop value).
  split_and!.
  - unfold insertFormatting.
    by rewrite substring_prefix, substring_from_suffix, substring_slice.
  - by apply three_pieces.
  - intros Hstop. rewrite !length_app, !length_take, length_drop. lia.
Qed.

Lemma insertFormatting_keeps_text_witness :
  let value := txt "make this bold" in
  ∃ a m z,
    insertFormatting value (Some (5, 9)) (txt "**") (txt "**")
      = Some (a ++ txt "**" ++ m ++ txt "**" ++ z, 5 + 2 + length m) ∧
    a ++ m ++ z = value ∧ length a = 5 ∧ length m = 4.
Proof.
  intros value.
  destruct (insertFormatting_keeps_text value 5 9 (txt "**") (txt "**"))
    as (a & m & z & Hrun & Hsame & Hin); [lia|].
  destruct Hin as (Ha & Hm & _); [simpl; lia|].
  exists a, m, z. by split_and!.
Defined.

(** X17: [insertAtCursor] inserts the text at the start of the selection
    and loses nothing: the new text is [a ++ text ++ z] where [a ++ z]
    is the old text, and inside the text the cursor is set right after
    what was inserted. *)
Theorem insertAtCursor_keeps_text value start stop inserted :
  ∃ a z,
    insertAtCursor value (Some (start, stop)) inserted
      = Some (a ++ inserted ++ z, start + length inserted) ∧
    a ++ z = value ∧
    (start ≤ length value →
     length a = start ∧ start + length inserted = length (a ++ inserted)).
Proof.
  exists (take start value), (drop start value). split_and!.
  - unfold insertAtCursor. by rewrite substring_prefix, substring_from_suffix.
  - apply take_drop.
  - intros Hstart. rewrite length_app, length_take. lia.
Qed.

Lemma insertAtCursor_keeps_text_witness :
  ∃ a z,
    insertAtCursor (txt "item") (Some (0, 0)) (txt "- ") = Some (a ++ txt "- " ++ z, 2)
    ∧ length a = 0.
Proof.
  destruct (insertAtCursor_keeps_text (txt "item") 0 0 (txt "- "))
    as (a & z & Hrun & _ & Hin).
  exists a, z. split; [exact Hrun|]. apply Hin. simpl. lia.
Defined.

End editor_facts.

(** ** The community page *)

Section community_page_facts.
Import Server Api Search CommunityPage.

#[local] Set Warnings "-clear-no-such-hyp".

Lemma text_json_truthy (t : text) : truthy_json (text_json t) = nonempty t.
Proof. by destruct t. Qed.

Lemma form_body_lookup name message atts k :
  match form_body name message atts with
  | JObj b =>
      b !! k = if decide (k = "attachments") then Some (JArr (attachment_json <$> atts))
               else if decide (k = "message") then Some (text_json (trim message))
               else if decide (k = "name") then Some (text_json (trim name))
               else None
  | _ => False
  end.
Proof.
  unfold form_body.
  repeat (case_decide; [subst k;
    repeat (rewrite lookup_insert_ne by done); by rewrite ?lookup_insert_eq |]).
  repeat (rewrite lookup_insert_ne by done). by rewrite lookup_singleton_ne.
Qed.

Lemma post_posts_accepted e b s posts name message :
  b !! "name" = Some name → truthy_json name = true →
  b !! "message" = Some message → truthy_json message = true →
  collection posts_key s = Some posts →
  let post := new_post e (Some name) (Some message) (b !! "attachments") in
  post_posts e (JObj b) s =
    (Response 200 (JObj (<["message" := JStr "Post created successfully"]>
                           {[ "post" := JObj post ]})),
     <[posts_key := JArr (posts ++ [JObj post])]> s).
Proof.
  intros Hn Tn Hm Tm Hc post. unfold post_posts, try_catch. simpl.
  rewrite Hn, Hm. simpl. rewrite Tn, Tm. simpl.
  by rewrite (collection_js_or _ _ _ Hc).
Qed.

Lemma post_posts_not_rejected e b s :
  truthy (b !! "name") = true → truthy (b !! "message") = true →
  status (post_posts e (JObj b) s).1 ≠ 400%Z.
Proof.
  intros Hn Hm. unfold post_posts, try_catch. simpl. rewrite Hn, Hm. simpl.
  destruct (as_array _ _); simpl; done.
Qed.

Lemma post_comments_not_rejected e postId b s :
  truthy (b !! "name") = true → truthy (b !! "message") = true →
  status (post_comments e postId (JObj b) s).1 ≠ 400%Z.
Proof.
  intros Hn Hm. unfold post_comments, try_catch. simpl. rewrite Hn, Hm. simpl.
  destruct (as_array _ _) as [l|]; simpl; [|done].
  destruct (findIndex postId l) as [[i|]|]; simpl; try done.
  destruct (push_comment _ _); simpl; done.
Qed.

Lemma validatePostForm_true name message :
  (validatePostForm name message).2 = true ↔
  nonempty (trim name) = true ∧ nonempty (trim message) = true.
Proof.
  unfold validatePostForm. simpl.
  destruct (nonempty (trim name)), (nonempty (trim message)); simpl; split;
    intros; try done; by destruct_and?.
Qed.

Lemma validateCommentForm_true name message :
  (validateCommentForm name message).2 = true ↔
  nonempty (trim name) = true ∧ nonempty (trim message) = true.
Proof.
  unfold validateCommentForm. simpl.
  destruct (nonempty (trim name)), (nonempty (trim message)); simpl; split;
    intros; try done; by destruct_and?.
Qed.

(** X18: a post form or a comment form that passes the validation of
    the page is never answered 400 by the server: the name and the
    message it sends are trimmed and not empty.  A post form that fails
    the validation sends nothing; one that passes it is stored at the
    end of the posts, with the trimmed name and message and with the
    attachments of the form. *)
Theorem valid_form_is_accepted e name message atts s postId :
  ((validatePostForm name message).2 = false →
   handleCreatePost e name message atts s = (None, s)) ∧
  ((validatePostForm name message).2 = true →
   status (post_posts e (form_body name message atts) s).1 ≠ 400%Z ∧
   ∀ posts, collection posts_key s = Some posts →
     ∃ post,
       handleCreatePost e name message atts s =
         (Some (Return (Some (JObj post))),
          <[posts_key := JArr (posts ++ [JObj post])]> s) ∧
       post !! "name" = Some (text_json (trim name)) ∧
       post !! "message" = Some (text_json (trim message)) ∧
       post !! "attachments" = Some (JArr (attachment_json <$> atts))) ∧
  ((validateCommentForm name message).2 = true →
   status (post_comments e postId (form_body name message atts) s).1 ≠ 400%Z).
Proof.
  split_and!.
  - intros H. unfold handleCreatePost. by rewrite H.
  - intros H. pose proof H as [Hn Hm]%validatePostForm_true.
    pose proof (form_body_lookup name message atts) as Hb.
    destruct (form_body name message atts) as [| | | | |b] eqn:Eb;
      try (by destruct (Hb "name")).
    assert (b !! "name" = Some (text_json (trim name))) as Hbn by apply Hb.
    assert (b !! "message" = Some (text_json (trim message))) as Hbm by apply Hb.
    assert (b !! "attachments" = Some (JArr (attachment_json <$> atts))) as Hba
      by apply Hb.
    split.
    + apply post_posts_not_rejected.
      * rewrite Hbn. unfold truthy. by rewrite text_json_truthy.
      * rewrite Hbm. unfold truthy. by rewrite text_json_truthy.
    + intros posts Hc. eexists. split.
      * unfold handleCreatePost. rewrite H, Eb.
        unfold communityAPI_createPost, fetch.
        rewrite (post_posts_accepted e b s posts (text_json (trim name))
                   (text_json (trim message)));
          [|done|by rewrite text_json_truthy|done
           |by rewrite text_json_truthy|done].
        cbn [fst snd ok status]. simpl. unfold data. simpl.
        rewrite lookup_insert_ne by done. by rewrite lookup_singleton_eq.
      * rewrite !new_post_lookup. simpl. by rewrite Hba.
  - intros [Hn Hm]%validateCommentForm_true.
    pose proof (form_body_lookup name message atts) as Hb.
    destruct (form_body name message atts) as [| | | | |b] eqn:Eb;
      try (by destruct (Hb "name")).
    assert (b !! "name" = Some (text_json (trim name))) as Hbn by apply Hb.
    assert (b !! "message" = Some (text_json (trim message))) as Hbm by apply Hb.
    apply post_comments_not_rejected.
    + rewrite Hbn. unfold truthy. by rewrite text_json_truthy.
    + rewrite Hbm. unfold truthy. by rewrite text_json_truthy.
Qed.

Lemma valid_form_is_accepted_witness :
  let e := Env "8c1f" "2026-01-01T00:00:00.000Z" in
  handleCreatePost e (txt "  ") (txt "hello") [] ∅ = (None, ∅) ∧
  ∃ post,
    (handleCreatePost e (txt " Ann ") (txt "hello world ") [] ∅).2
      = {[ posts_key := JArr [JObj post] ]} ∧
    post !! "name" = Some (JStr "Ann") ∧
    post !! "message" = Some (JStr "hello world").
Proof.
  intros e. split.
  - apply (valid_form_is_accepted e (txt "  ") (txt "hello") [] ∅ ""). reflexivity.
  - destruct (valid_form_is_accepted e (txt " Ann ") (txt "hello world ") [] ∅ "")
      as (_ & Hvalid & _).
    destruct Hvalid as [_ Hstore]; [reflexivity|].
    destruct (Hstore []) as (post & Hrun & Hn & Hm & _); [reflexivity|].
    exists post. split_and!; [by rewrite Hrun|done|done].
Defined.

(** X19: expanding or collapsing the comments of a post concerns that
    post only: a second click undoes the first, a collapsed post shows
    its first comment only and an expanded one shows them all, and what
    every other post shows is not changed. *)
Theorem toggleCommentsExpanded_one_post {A} postId (expanded : gset string)
    (comments : list A) :
  toggleCommentsExpanded postId (toggleCommentsExpanded postId expanded)
    = expanded ∧
  shown_comments postId (toggleCommentsExpanded postId expanded) comments
    = (if decide (postId ∈ expanded) then take 1 comments else comments) ∧
  (∀ other, other ≠ postId →
     shown_comments other (toggleCommentsExpanded postId expanded) comments
     = shown_comments other expanded comments).
Proof.
  unfold toggleCommentsExpanded, shown_comments. split_and!.
  - destruct (decide (postId ∈ expanded)) as [Hin|Hout].
    + rewrite decide_False by set_solver.
      apply set_eq. intros x. destruct (decide (x = postId)); set_solver.
    + rewrite decide_True by set_solver. set_solver.
  - destruct (decide (postId ∈ expanded)) as [Hin|Hout].
    + rewrite decide_False by set_solver.
      change 0%Z with (Z.of_nat 0). change 1%Z with (Z.of_nat 1).
      rewrite slice_in_range. simpl. destruct comments; done.
    + by rewrite decide_True by set_solver.
  - intros other Hne.
    destruct (decide (postId ∈ expanded)), (decide (other ∈ expanded)).
    + by rewrite decide_True by set_solver.
    + by rewrite decide_False by set_solver.
    + by rewrite decide_True by set_solver.
    + by rewrite decide_False by set_solver.
Qed.

Lemma toggleCommentsExpanded_one_post_witness :
  let expanded : gset string := {[ "p1" ]} in
  shown_comments "p2" (toggleCommentsExpanded "p1" expanded) [1; 2; 3] = [1] ∧
  shown_comments "p1" (toggleCommentsExpanded "p1" expanded) [1; 2; 3] = [1].
Proof.
  intros expanded.
  destruct (toggleCommentsExpanded_one_post "p1" expanded [1; 2; 3])
    as (_ & Hself & Hother).
  split.
  - rewrite Hother; done.
  - rewrite Hself. done.
Defined.

End community_page_facts.

(** ** More on the project structure page *)

Section structure_more_facts.
Import Server Structure.

Implicit Types (st : state) (l pre post : list FolderInfo) (a b : FolderInfo).

Lemma currentFolders_setCurrentFolders v st :
  currentFolders (setCurrentFolders v st) = v.
Proof. unfold currentFolders, setCurrentFolders. by destruct (activeRepo st) eqn:E. Qed.

Lemma activeRepo_setCurrentFolders v st :
  activeRepo (setCurrentFolders v st) = activeRepo st.
Proof. unfold setCurrentFolders. by destruct (activeRepo st) eqn:E. Qed.

Lemma moved_up_at st pre a b post :
  currentFolders st = pre ++ a :: b :: post →
  moved (S (length pre)) up st
  = Some (setCurrentFolders (pre ++ b :: a :: post) st, Some (activeRepo st)).
Proof.
  intros H. unfold moved. by rewrite H, moveFolder_up, dense_fmap_Some.
Qed.

Lemma moved_down_at st pre a b post :
  currentFolders st = pre ++ a :: b :: post →
  moved (length pre) down st
  = Some (setCurrentFolders (pre ++ b :: a :: post) st, Some (activeRepo st)).
Proof.
  intros H. unfold moved. by rewrite H, moveFolder_down, dense_fmap_Some.
Qed.

(** X20: moving a folder up and then moving it down again, by the
    arrows of the row it then stands in, gives the folder array back;
    in between the array holds the same folders, in another order. *)
Theorem move_up_then_down st i :
  0 < i → i < length (currentFolders st) →
  ∃ st1 st2,
    handle (ClickUp i) st = Some (st1, Some (activeRepo st)) ∧
    currentFolders st1 ≡ₚ currentFolders st ∧
    handle (ClickDown (i - 1)) st1 = Some (st2, Some (activeRepo st)) ∧
    currentFolders st2 = currentFolders st.
Proof.
  intros Hpos Hlt.
  destruct (split_at_pair (currentFolders st) (i - 1))
    as (pre & a & b & post & Hl & Hlen); [lia|].
  replace i with (S (length pre)) in * by lia.
  exists (setCurrentFolders (pre ++ b :: a :: post) st),
         (setCurrentFolders (pre ++ a :: b :: post)
            (setCurrentFolders (pre ++ b :: a :: post) st)).
  assert (length (currentFolders st) = length pre + 2 + length post) as Hlength
    by (rewrite Hl, length_app; simpl; lia).
  split_and!.
  - cbn [handle]. rewrite decide_True by lia. by apply moved_up_at.
  - rewrite currentFolders_setCurrentFolders, Hl.
    apply Permutation_app_head, perm_swap.
  - cbn [handle]. rewrite currentFolders_setCurrentFolders.
    replace (S (length pre) - 1) with (length pre) by lia.
    rewrite decide_True by (rewrite length_app; simpl; lia).
    rewrite bool_decide_true by (rewrite length_app; simpl; lia).
    rewrite (moved_down_at _ pre b a post)
      by apply currentFolders_setCurrentFolders.
    by rewrite activeRepo_setCurrentFolders.
  - by rewrite currentFolders_setCurrentFolders.
Qed.

Lemma move_up_then_down_witness :
  let st := sample_page [sample_folder "A"; sample_folder "B"; sample_folder "C"] in
  ∃ st1 st2,
    handle (ClickUp 1) st = Some (st1, Some UI) ∧
    handle (ClickDown 0) st1 = Some (st2, Some UI) ∧
    uiFolders st2 = [sample_folder "A"; sample_folder "B"; sample_folder "C"].
Proof.
  intros st.
  destruct (move_up_then_down st 1) as (st1 & st2 & Hup & _ & Hdown & Hsame);
    [lia | simpl; lia |].
  exists st1, st2. split_and!; [exact Hup | exact Hdown |].
  assert (activeRepo st2 = UI) as Hrepo.
  { vm_compute in Hup. injection Hup as <-.
    vm_compute in Hdown. by injection Hdown as <-. }
  unfold currentFolders in Hsame. by rewrite Hrepo in Hsame.
Defined.

(** X21: confirming the deletion of a folder removes every folder of
    the active repo that has that name and keeps the others in their
    order; the folders of the other repo are not touched, and the
    expanded folder is collapsed when it has that name.  So a folder
    added and then deleted under its name "New Folder" takes with it
    every other folder still called "New Folder". *)
Theorem delete_removes_every_namesake st name :
  name ≠ "" →
  ∃ st',
    handle (ConfirmDelete name) st = Some (st', Some (activeRepo st)) ∧
    currentFolders st' = filter (λ f, f_name f ≠ name) (currentFolders st) ∧
    (∀ f, f ∈ currentFolders st' → f_name f ≠ name) ∧
    (∀ r, r ≠ activeRepo st → folders r st' = folders r st) ∧
    (expandedFolder st = Some name → expandedFolder st' = None) ∧
    (∀ dateNow st1,
       name = "New Folder" →
       handle (ClickAddFolder dateNow) st = Some (st1, Some (activeRepo st)) →
       ∃ st2,
         handle (ConfirmDelete name) st1 = Some (st2, Some (activeRepo st)) ∧
         currentFolders st2 = currentFolders st').
Proof.
  intros Hname. apply String.eqb_neq in Hname as Hneq.
  eexists. split_and!.
  - cbn [handle]. rewrite Hneq. reflexivity.
  - unfold handleDeleteFolder. cbn [fst].
    destruct (bool_decide _); unfold currentFolders, setExpandedFolder,
      setCurrentFolders; by destruct (activeRepo st) eqn:E.
  - intros f. unfold handleDeleteFolder. cbn [fst].
    assert (∀ st'', currentFolders (setExpandedFolder None st'')
                    = currentFolders st'') as Hexp by done.
    destruct (bool_decide _); rewrite ?Hexp, currentFolders_setCurrentFolders;
      by intros [? _]%list_elem_of_filter.
  - intros r Hr. unfold handleDeleteFolder. cbn [fst].
    destruct (bool_decide _); unfold folders, setExpandedFolder,
      setCurrentFolders; destruct r, (activeRepo st) eqn:E; done.
  - intros Hexp. unfold handleDeleteFolder. cbn [fst].
    by rewrite bool_decide_true.
  - intros dateNow st1 -> Hadd. cbn [handle] in Hadd.
    unfold handleAddFolder in Hadd. injection Hadd as <-.
    eexists. split.
    + cbn [handle]. rewrite Hneq. unfold handleDeleteFolder.
      by rewrite activeRepo_setCurrentFolders.
    + unfold handleDeleteFolder. cbn [fst].
      assert (∀ st'', currentFolders (setExpandedFolder None st'')
                      = currentFolders st'') as Hexp by done.
      assert (∀ v st'', expandedFolder (setCurrentFolders v st'')
                        = expandedFolder st'') as Hkeep
        by (intros v st''; unfold setCurrentFolders; by destruct (activeRepo st'')).
      rewrite Hkeep.
      destruct (bool_decide _);
        rewrite ?Hexp, !currentFolders_setCurrentFolders, filter_app;
        rewrite filter_cons_False, filter_nil, app_nil_r; done || by intros [].
Qed.

Lemma delete_removes_every_namesake_witness :
  let st := sample_page [sample_folder "New Folder"; sample_folder "Pages";
                         sample_folder "New Folder"] in
  ∃ st',
    handle (ConfirmDelete "New Folder") st = Some (st', Some UI) ∧
    uiFolders st' = [sample_folder "Pages"].
Proof.
  intros st.
  destruct (delete_removes_every_namesake st "New Folder")
    as (st' & Hrun & Hleft & _); [done|].
  exists st'. split; [exact Hrun|].
  assert (activeRepo st' = UI) as Hrepo
    by (vm_compute in Hrun; by injection Hrun as <-).
  unfold currentFolders in Hleft. rewrite Hrepo in Hleft. rewrite Hleft.
  by vm_compute.
Defined.

Lemma replace_none name d l :
  (∀ f, f ∈ l → f_name f ≠ name) →
  (λ f, if bool_decide (f_name f = name) then d else f) <$> l = l.
Proof.
  induction l as [|x l IH]; intros H; [done|].
  rewrite fmap_cons, bool_decide_false by (apply H; left).
  f_equal. apply IH. intros f Hf. apply H. by right.
Qed.

Lemma replace_by_itself name first l :
  find (λ f, bool_decide (f_name f = name)) l = Some first →
  NoDup (f_name <$> l) →
  (λ f, if bool_decide (f_name f = name) then first else f) <$> l = l.
Proof.
  induction l as [|x l IH]; [done|]. cbn [find].
  intros Hfind [Hx Hnd]%NoDup_cons.
  destruct (bool_decide (f_name x = name)) eqn:E.
  - injection Hfind as ->. rewrite fmap_cons, E.
    apply bool_decide_eq_true_1 in E. f_equal.
    apply replace_none. intros f Hf Hname. apply Hx.
    rewrite <- E in Hname. rewrite <- Hname. by apply list_elem_of_fmap_2.
  - rewrite fmap_cons, E. f_equal. by apply IH.
Qed.

(** X22: editing a folder and saving puts the edited data in the place
    of every folder of the active repo that has the name under which
    the edit was opened; the other folders, the order and the number of
    folders are kept, and the edit is closed.  Saving what was opened,
    without a change, leaves the array as it is when the names of the
    folders are distinct. *)
Theorem edit_then_save st name data first :
  name ≠ "" →
  find (λ f, bool_decide (f_name f = name)) (currentFolders st) = Some first →
  ∃ st1 st2 st3,
    handle (ClickEdit name) st = Some (st1, None) ∧
    editData st1 = Some first ∧
    handle (ChangeEditData data) st1 = Some (st2, None) ∧
    handle ClickSave st2 = Some (st3, Some (activeRepo st)) ∧
    currentFolders st3
      = (λ f, if bool_decide (f_name f = name) then data else f)
          <$> currentFolders st ∧
    length (currentFolders st3) = length (currentFolders st) ∧
    editingFolder st3 = None ∧ editData st3 = None ∧
    (NoDup (f_name <$> currentFolders st) →
     ∃ st3', handle ClickSave st1 = Some (st3', Some (activeRepo st)) ∧
             currentFolders st3' = currentFolders st).
Proof.
  intros Hname Hfind. apply String.eqb_neq in Hname as Hneq.
  eexists _, _, _. split_and!.
  - cbn [handle]. unfold handleEdit. reflexivity.
  - cbn [editData setEditing]. exact Hfind.
  - cbn [handle editData setEditing]. rewrite Hfind. reflexivity.
  - cbn [handle]. unfold handleSave. cbn [editingFolder editData setEditing].
    rewrite Hneq. reflexivity.
  - unfold setEditing, currentFolders, setCurrentFolders. cbn.
    by destruct (activeRepo st) eqn:E.
  - unfold setEditing, currentFolders, setCurrentFolders. cbn.
    destruct (activeRepo st) eqn:E; cbn; by rewrite length_fmap.
  - done.
  - done.
  - intros Hnd. eexists. split.
    + cbn [handle]. unfold handleSave. cbn [editingFolder editData setEditing].
      rewrite Hfind, Hneq. reflexivity.
    + etrans; [|exact (replace_by_itself name first (currentFolders st) Hfind Hnd)].
      unfold setEditing, currentFolders, setCurrentFolders. cbn.
      by destruct (activeRepo st) eqn:E.
Qed.

Lemma edit_then_save_witness :
  let st := sample_page [sample_folder "Pages"; sample_folder "Hooks"] in
  let data := {| f_id := "Hooks"; f_name := "Hooks"; f_purpose := "Setup";
                 f_description := ""; f_attachments := None |} in
  ∃ st1 st2 st3,
    handle (ClickEdit "Hooks") st = Some (st1, None) ∧
    handle (ChangeEditData data) st1 = Some (st2, None) ∧
    handle ClickSave st2 = Some (st3, Some UI) ∧
    uiFolders st3 = [sample_folder "Pages"; data].
Proof.
  intros st data.
  destruct (edit_then_save st "Hooks" data (sample_folder "Hooks"))
    as (st1 & st2 & st3 & H1 & _ & H2 & H3 & Hnew & _); [done|done|].
  exists st1, st2, st3. split_and!; [done..|].
  assert (activeRepo st3 = UI) as Hrepo.
  { vm_compute in H1. injection H1 as <-. vm_compute in H2. injection H2 as <-.
    vm_compute in H3. by injection H3 as <-. }
  unfold currentFolders in Hnew. rewrite Hrepo in Hnew. rewrite Hnew.
  by vm_compute.
Defined.

End structure_more_facts.

(** ** More on the global search *)

Section search_more_facts.
Import Server Search.

Implicit Types (s q t : text) (parts : list part).

(** X23: with an empty search term [getHighlightedSnippet] never
    returns, whatever the text: the first search finds the empty string
    at index 0 and the loop finds it again at the same index in every
    iteration. *)
Theorem getHighlightedSnippet_never_returns t maxLength :
  ∀ fuel, getHighlightedSnippet fuel t [] maxLength = None.
Proof. intros fuel. apply getHighlightedSnippet_empty_term. Qed.

Lemma snippet_window_bound t q i :
  length (snippet_window t q i) ≤ length q + 106.
Proof.
  unfold snippet_window. rewrite !length_app, length_take, length_drop.
  assert (length ellipsis = 3) as He by reflexivity.
  destruct (0 <? i - 30), (_ <? length t); cbv iota; rewrite ?He;
    change (length (@nil ascii)) with 0; lia.
Qed.

(** X24: the snippet of a non-empty term is short: when the term occurs
    in the text, what the fragment displays is at most 106 units longer
    than the term; when it does not, the string is at most 103 units
    long. *)
Theorem snippet_is_bounded t q fuel :
  q ≠ [] → length t + 7 ≤ fuel →
  ∃ n, getHighlightedSnippet fuel t q 100 = Some n ∧
       length (node_text n) ≤ length q + 106 ∧
       (absent q t → length (node_text n) ≤ 103).
Proof.
  intros Hq Hfuel.
  destruct (indexOf (toLowerCase t) (toLowerCase q) 0) as [i|] eqn:E.
  - apply indexOf_first in E.
    destruct (getHighlightedSnippet_found t q i fuel 100 Hq E Hfuel)
      as (parts & -> & Hscan).
    eexists. split; [done|]. cbn [node_text].
    rewrite (scanned_displayed _ _ _ _ Hscan).
    split; [apply snippet_window_bound|].
    intros Habs. destruct E as [Hocc _]. by apply Habs in Hocc.
  - apply indexOf_absent in E. rewrite (getHighlightedSnippet_absent _ _ _ _ E).
    eexists. split; [done|]. cbn [node_text].
    assert (length (take 100 t ++ (if 100 <? length t then ellipsis else [])) ≤ 103)
      as Hlen.
    { rewrite length_app, length_take.
      assert (length ellipsis = 3) as He by reflexivity.
      destruct (100 <? length t); cbv iota; rewrite ?He;
        change (length (@nil ascii)) with 0; lia. }
    split; [lia|done].
Qed.

Lemma snippet_is_bounded_witness :
  let t := concat (replicate 150 (txt "x")) ++ txt "fox" ++ concat (replicate 147 (txt "y")) in
  ∃ n, getHighlightedSnippet 400 t (txt "Fox") 100 = Some n ∧
       length (node_text n) ≤ 109.
Proof.
  intros t.
  destruct (snippet_is_bounded t (txt "Fox") 400) as (n & Hrun & Hlen & _);
    [done | vm_compute; lia |].
  exists n. split; [done|]. exact Hlen.
Defined.

Lemma occurs_in_window t q i :
  occurs_at q t i →
  ∃ j, occurs_at q (snippet_window t q i) j.
Proof.
  intros Hocc. pose proof (occurs_at_fits _ _ _ Hocc) as Hfit.
  destruct Hocc as (pre & mid & post & -> & <- & Hmid).
  assert (length mid = length q) as Hlen.
  { apply (f_equal length) in Hmid. by rewrite !toLowerCase_length in Hmid. }
  unfold snippet_window.
  set (start := length pre - 30).
  set (stop := _ `min` _).
  assert (start ≤ length pre) by (unfold start; lia).
  assert (length pre + length mid ≤ stop).
  { unfold stop. rewrite !length_app in *. lia. }
  rewrite (drop_app_le pre) by done.
  rewrite (take_app_ge (drop start pre)) by (rewrite length_drop; lia).
  rewrite (take_app_ge mid) by (rewrite length_drop; lia).
  set (a := if 0 <? start then ellipsis else []).
  set (z := if stop <? _ then ellipsis else []).
  exists (length (a ++ drop start pre)).
  eexists (a ++ drop start pre), mid, _.
  split_and!; [|done|done].
  rewrite <- !(assoc_L (++)). reflexivity.
Qed.

Lemma scanned_has_mark q k s parts :
  scanned q k s parts → (∃ j, occurs_at q s j) → ∃ k' m, Mark k' m ∈ parts.
Proof.
  intros [k0 s0 Habs|k0 p m rest parts0 _ _ _] [j Hj].
  - by apply Habs in Hj.
  - exists k0, m. apply elem_of_app. right. left.
Qed.

(** X25: for a text and a term of Latin-1 units: when the term is not
    empty and occurs in the text, case-insensitively, the snippet is a
    fragment with at least one highlight span, and every highlight span
    of it holds the term, in the case of the text. *)
Theorem found_term_is_highlighted t q fuel :
  q ≠ [] → contains q t = true → length t + 7 ≤ fuel →
  ∃ parts,
    getHighlightedSnippet fuel t q 100 = Some (Fragment parts) ∧
    (∃ k m, Mark k m ∈ parts) ∧
    (∀ k m, Mark k m ∈ parts → toLowerCase m = toLowerCase q).
Proof.
  intros Hq Hc Hfuel.
  destruct (indexOf (toLowerCase t) (toLowerCase q) 0) as [i|] eqn:E.
  - apply indexOf_first in E.
    destruct (getHighlightedSnippet_found t q i fuel 100 Hq E Hfuel)
      as (parts & Hrun & Hscan).
    exists parts. split_and!; [done| |].
    + eapply scanned_has_mark; [done|]. apply occurs_in_window. by destruct E.
    + by apply (scanned_marks _ _ _ _ Hscan).
  - apply indexOf_absent, contains_absent in E. congruence.
Qed.

Lemma found_term_is_highlighted_witness :
  ∃ parts,
    getHighlightedSnippet 50 (txt "Hello World") (txt "WORLD") 100
      = Some (Fragment parts) ∧
    ∃ k m, Mark k m ∈ parts.
Proof.
  destruct (found_term_is_highlighted (txt "Hello World") (txt "WORLD") 50)
    as (parts & Hrun & Hmark & _); [done | by vm_compute | vm_compute; lia |].
  by exists parts.
Defined.

Lemma mark_keys_app parts1 parts2 :
  mark_keys (parts1 ++ parts2) = mark_keys parts1 ++ mark_keys parts2.
Proof. apply omap_app. Qed.

Lemma mark_keys_plain s : mark_keys (plain s) = [].
Proof. unfold plain. by destruct (nonempty s). Qed.

Lemma scanned_keys q k s parts :
  q ≠ [] → scanned q k s parts →
  Forall (λ k', k ≤ k') (mark_keys parts) ∧ StronglySorted lt (mark_keys parts).
Proof.
  intros Hq. induction 1 as [k s _|k p m rest parts _ Hlen _ [IHge IHsorted]].
  - rewrite mark_keys_plain. split; constructor.
  - rewrite mark_keys_app, mark_keys_plain. cbn.
    assert (0 < length m) by (rewrite Hlen; destruct q; [done|simpl; lia]).
    split.
    + constructor; [done|]. eapply Forall_impl; [exact IHge|]. simpl. lia.
    + constructor; [done|]. eapply Forall_impl; [exact IHge|]. simpl. lia.
Qed.

(** X26: the keys of the highlight spans of a snippet grow from one
    span to the next, so that no two spans of a fragment have the same
    key. *)
Theorem highlight_keys_are_distinct t q fuel parts :
  q ≠ [] → length t + 7 ≤ fuel →
  getHighlightedSnippet fuel t q 100 = Some (Fragment parts) →
  StronglySorted lt (mark_keys parts) ∧ NoDup (mark_keys parts).
Proof.
  intros Hq Hfuel Hrun.
  destruct (indexOf (toLowerCase t) (toLowerCase q) 0) as [i|] eqn:E.
  - apply indexOf_first in E.
    destruct (getHighlightedSnippet_found t q i fuel 100 Hq E Hfuel)
      as (parts' & Hrun' & Hscan).
    rewrite Hrun in Hrun'. injection Hrun' as <-.
    destruct (scanned_keys _ _ _ _ Hq Hscan) as [_ Hsorted].
    split; [done|].
    clear -Hsorted. induction Hsorted as [|k ks _ IH Hall]; constructor; [|done].
    intros Hin. rewrite Forall_forall in Hall. specialize (Hall _ Hin). lia.
  - apply indexOf_absent in E.
    by rewrite (getHighlightedSnippet_absent _ _ _ _ E) in Hrun.
Qed.

Lemma highlight_keys_are_distinct_witness :
  ∃ parts,
    getHighlightedSnippet 50 (txt "abcabcabc") (txt "BC") 100
      = Some (Fragment parts) ∧
    mark_keys parts = [0; 3; 6] ∧ NoDup (mark_keys parts).
Proof.
  destruct (getHighlightedSnippet 50 (txt "abcabcabc") (txt "BC") 100)
    as [[|parts]|] eqn:E; try (by vm_compute in E).
  exists parts. split; [done|].
  destruct (highlight_keys_are_distinct (txt "abcabcabc") (txt "BC") 50 parts)
    as [_ Hnd]; [done | vm_compute; lia | done |].
  split; [|done]. vm_compute in E. by injection E as <-.
Defined.

Lemma is_white_lower_unit c : is_white (lower_unit c) = is_white c.
Proof. by destruct c as [[] [] [] [] [] [] [] []]. Qed.

Lemma trimStart_head s :
  trimStart s = [] ∨ ∃ c s', trimStart s = c :: s' ∧ is_white c = false.
Proof.
  induction s as [|c s IH]; [by left|]. cbn [trimStart].
  destruct (is_white c) eqn:E; [done|]. right. by exists c, s.
Qed.

Lemma trimStart_blank s :
  trimStart s = [] ↔ Forall (λ c, is_white c = true) s.
Proof.
  induction s as [|c s IH]; cbn [trimStart]; [by split|].
  destruct (is_white c) eqn:E.
  - rewrite IH. split; [by constructor|by inversion 1].
  - split; [done|]. inversion 1; congruence.
Qed.

Lemma trim_blank s : trim s = [] ↔ Forall (λ c, is_white c = true) s.
Proof.
  unfold trim. split.
  - intros H. apply (f_equal reverse) in H. rewrite reverse_involutive in H.
    change (reverse []) with (@nil ascii) in H.
    apply trimStart_blank in H. rewrite Forall_reverse in H.
    apply trimStart_blank.
    destruct (trimStart_head s) as [|(c & s' & Hs & Hc)]; [done|].
    rewrite Hs in H. inversion H; congruence.
  - intros H. apply trimStart_blank in H. by rewrite H.
Qed.

Lemma trim_blank_lower q1 q2 :
  toLowerCase q1 = toLowerCase q2 → trim q1 = [] → trim q2 = [].
Proof.
  intros Hq H%trim_blank. apply trim_blank.
  assert (Forall (λ c, is_white c = true) (toLowerCase q1)) as Hl.
  { unfold toLowerCase. apply Forall_fmap. eapply Forall_impl; [exact H|].
    intros c Hc. simpl. by rewrite is_white_lower_unit. }
  rewrite Hq in Hl. unfold toLowerCase in Hl. apply Forall_fmap in Hl.
  eapply Forall_impl; [exact Hl|].
  intros c Hc. simpl in Hc. by rewrite is_white_lower_unit in Hc.
Qed.

Lemma getHighlightedSnippet_lower fuel t q1 q2 maxLength :
  toLowerCase q1 = toLowerCase q2 →
  getHighlightedSnippet fuel t q1 maxLength
  = getHighlightedSnippet fuel t q2 maxLength.
Proof.
  intros Hq. assert (length q1 = length q2) as Hlen.
  { apply (f_equal length) in Hq. by rewrite !toLowerCase_length in Hq. }
  unfold getHighlightedSnippet. by rewrite Hq, Hlen.
Qed.

Lemma snippet_of_lower t q1 q2 :
  toLowerCase q1 = toLowerCase q2 → snippet_of t q1 = snippet_of t q2.
Proof.
  intros Hq. unfold snippet_of.
  by rewrite (getHighlightedSnippet_lower _ _ q1 q2).
Qed.

Lemma forEach_ext {A B} (f g : B → A → option B) l acc :
  (∀ acc x, f acc x = g acc x) → forEach f l acc = forEach g l acc.
Proof.
  intros Hfg. revert acc. induction l as [|x l IH]; intros acc; [done|].
  cbn [forEach]. rewrite Hfg. destruct (g acc x); [apply IH|done].
Qed.

(** X27: on strings of Latin-1 units the search does not see the case
    of the search term: two terms with the same lower case, which then
    have the same length, give the same results, with the same snippets
    and the same highlight spans. *)
Theorem search_ignores_case_of_term toLocaleDateString q1 q2 snap :
  toLowerCase q1 = toLowerCase q2 →
  search toLocaleDateString q1 snap = search toLocaleDateString q2 snap.
Proof.
  intros Hq. unfold search.
  destruct (trim q1) eqn:E1, (trim q2) eqn:E2; [done| | |].
  - apply (trim_blank_lower q1 q2) in E1; congruence.
  - apply (trim_blank_lower q2 q1) in E2; congruence.
  - assert (∀ r acc f, searchFolder r q1 acc f = searchFolder r q2 acc f) as Hf.
    { intros r acc f. unfold searchFolder.
      by rewrite Hq, (snippet_of_lower _ q1 q2). }
    assert (∀ acc d, searchDocument toLocaleDateString q1 acc d
                     = searchDocument toLocaleDateString q2 acc d) as Hd.
    { intros acc d. unfold searchDocument. by rewrite Hq. }
    assert (∀ acc d, searchDiscussion q1 acc d = searchDiscussion q2 acc d)
      as Hp.
    { intros acc d. unfold searchDiscussion.
      by rewrite Hq, (snippet_of_lower _ q1 q2). }
    rewrite (forEach_ext _ _ _ _ (Hf UI)).
    destruct (forEach _ (uiFolders snap) []) as [r1|]; [|done]. cbn [mbind option_bind].
    rewrite (forEach_ext _ _ _ _ (Hf API)).
    destruct (forEach _ (apiFolders snap) r1) as [r2|]; [|done]. cbn [mbind option_bind].
    rewrite (forEach_ext _ _ _ _ Hd).
    destruct (forEach _ (documents snap) r2) as [r3|]; [|done]. cbn [mbind option_bind].
    by rewrite (forEach_ext _ _ _ _ Hp).
Qed.

Lemma search_ignores_case_of_term_witness :
  search (λ _, txt "01/01/2026") (txt "HOOK") sample_snapshot
  = search (λ _, txt "01/01/2026") (txt "hook") sample_snapshot
  ∧ is_Some (search (λ _, txt "01/01/2026") (txt "hook") sample_snapshot).
Proof.
  split.
  - apply search_ignores_case_of_term. by vm_compute.
  - vm_compute. by eexists.
Defined.

End search_more_facts.

(** ** The snippet on strings outside Latin-1 *)

Section utf16_facts.
Import Search.

Implicit Types (s q t : text) (lower : Utf16.str → Utf16.str).

Lemma units_app s t : Utf16.units (s ++ t) = Utf16.units s ++ Utf16.units t.
Proof. apply fmap_app. Qed.

Lemma units_length s : length (Utf16.units s) = length s.
Proof. apply length_fmap. Qed.

Lemma units_eq (a b : ascii) :
  bool_decide (N_of_ascii a = N_of_ascii b) = bool_decide (a = b).
Proof.
  apply bool_decide_ext. split; [|by intros ->].
  intros H. apply (f_equal ascii_of_N) in H. by rewrite !ascii_N_embedding in H.
Qed.

Lemma startsWith_units s q :
  Utf16.startsWith (Utf16.units s) (Utf16.units q) = startsWith s q.
Proof.
  revert s. induction q as [|a q IH]; intros [|b s]; try done.
  cbn. by rewrite units_eq, <- IH.
Qed.

Lemma scan_units q s k :
  Utf16.scan (Utf16.units q) (Utf16.units s) k = scan q s k.
Proof.
  revert k. induction s as [|b s IH]; intros k.
  - change (Utf16.units []) with (@nil N).
    cbn [Utf16.scan scan]. by rewrite <- (startsWith_units []).
  - change (Utf16.units (b :: s)) with (N_of_ascii b :: Utf16.units s).
    cbn [Utf16.scan scan]. rewrite <- (startsWith_units (b :: s)).
    change (Utf16.units (b :: s)) with (N_of_ascii b :: Utf16.units s).
    destruct (Utf16.startsWith _ _); [done|apply IH].
Qed.

Lemma indexOf_units s q k :
  Utf16.indexOf (Utf16.units s) (Utf16.units q) k = indexOf s q k.
Proof.
  unfold Utf16.indexOf, indexOf. rewrite units_length.
  rewrite <- (scan_units q (drop (k `min` length s) s)).
  unfold Utf16.units. by rewrite fmap_drop.
Qed.

Lemma substring_units s a b :
  Utf16.substring (Utf16.units s) a b = Utf16.units (substring s a b).
Proof.
  unfold Utf16.substring, substring, Utf16.units.
  by rewrite length_fmap, fmap_take, fmap_drop.
Qed.

Lemma substring_from_units s a :
  Utf16.substring_from (Utf16.units s) a = Utf16.units (substring_from s a).
Proof.
  unfold Utf16.substring_from, substring_from.
  by rewrite units_length, substring_units.
Qed.

Lemma highlight_units fuel snippet snippetLower lowerSearch n
    (parts : list part) cur si :
  Utf16.highlight fuel (Utf16.units snippet) (Utf16.units snippetLower)
    (Utf16.units lowerSearch) n (Utf16.part_units <$> parts) cur si
  = (λ r : list part * nat, (Utf16.part_units <$> r.1, r.2))
      <$> highlight fuel snippet snippetLower lowerSearch n parts cur si.
Proof.
  revert parts cur si.
  induction fuel as [|fuel IH]; intros parts cur [i|]; try done.
  cbn [Utf16.highlight highlight]. cbv zeta.
  rewrite indexOf_units, !substring_units.
  destruct (cur <? i).
  - rewrite <- IH. by rewrite !fmap_app.
  - rewrite <- IH. by rewrite !fmap_app.
Qed.

(** On the strings of Latin-1 units the two embeddings of
    [getHighlightedSnippet] give the same node, for every [toLowerCase]
    that lower-cases these strings as [Search.toLowerCase] does. *)
Lemma getHighlightedSnippet_latin1 lower fuel t q maxLength :
  Utf16.latin1_lower lower →
  Utf16.getHighlightedSnippet lower fuel (Utf16.units t) (Utf16.units q) maxLength
  = Utf16.node_units <$> getHighlightedSnippet fuel t q maxLength.
Proof.
  intros Hlower. unfold Utf16.getHighlightedSnippet, getHighlightedSnippet.
  rewrite !Hlower, indexOf_units, !units_length.
  destruct (indexOf (toLowerCase t) (toLowerCase q) 0) as [index|].
  - cbv zeta. rewrite substring_units.
    set (snippet16 := if _ <? length t then _ else _).
    set (snippet := if _ <? length t then _ else _).
    assert (snippet16 = Utf16.units snippet) as ->.
    { unfold snippet16, snippet.
      destruct (0 <? index - 30), (_ <? length t);
        by rewrite ?units_app. }
    rewrite Hlower, indexOf_units, units_length.
    pose proof (highlight_units fuel snippet (toLowerCase snippet)
                  (toLowerCase q) (length q) [] 0
                  (indexOf (toLowerCase snippet) (toLowerCase q) 0)) as H.
    rewrite fmap_nil in H. rewrite H.
    destruct (highlight _ _ _ _ _ _ _ _) as [[parts cur]|]; [|done].
    cbn -[Utf16.substring_from substring_from Nat.ltb].
    rewrite substring_from_units.
    destruct (cur <? length snippet); [|done].
    by rewrite fmap_app.
  - cbn -[Utf16.substring substring Nat.ltb]. rewrite substring_units.
    destruct (maxLength <? length t); [by rewrite units_app|].
    by rewrite !app_nil_r.
Qed.

Lemma sample_toLowerCase_latin1 : Utf16.latin1_lower Utf16.sample_toLowerCase.
Proof.
  intros s. induction s as [|c s IH]; [done|].
  change (Utf16.sample_toLowerCase (Utf16.units (c :: s)))
    with (Utf16.sample_lower_unit (N_of_ascii c)
          ++ Utf16.sample_toLowerCase (Utf16.units s)).
  rewrite IH. by destruct c as [[] [] [] [] [] [] [] []].
Qed.

(** C1: the highlight span slips when lower-casing changes the length of
    the text.  For the text of the units U+0130, space, "f", "o", "x" and
    the term "fox", the lower case of the text has one unit more than the
    text; the index of the term in it, 3, is used on the text itself, and
    the highlight span holds "ox" and not the occurrence "fox": the
    fragment is the string of U+0130, space and "f" and then the span
    "ox". *)
Theorem getHighlightedSnippet_span_slips lower fuel :
  let t := Utf16.capital_I_dot :: Utf16.lit " fox" in
  lower t = N_of_ascii "i" :: Utf16.combining_dot :: Utf16.lit " fox" →
  lower (Utf16.lit "fox") = Utf16.lit "fox" →
  0 < fuel →
  Utf16.getHighlightedSnippet lower fuel t (Utf16.lit "fox") 100
  = Some (Utf16.Fragment
            [Utf16.Plain (Utf16.capital_I_dot :: Utf16.lit " f");
             Utf16.Mark 0 (Utf16.lit "ox")]).
Proof.
  intros t Ht Hq Hfuel. destruct fuel as [|fuel]; [lia|].
  unfold Utf16.getHighlightedSnippet. rewrite Ht, Hq.
  assert (Utf16.indexOf
            (N_of_ascii "i" :: Utf16.combining_dot :: Utf16.lit " fox")
            (Utf16.lit "fox") 0 = Some 3) as Hindex by reflexivity.
  rewrite Hindex. cbv zeta.
  assert (Utf16.substring t (3 - 30) (length t `min` (3 + length (Utf16.lit "fox") + 70))
          = t) as -> by reflexivity.
  change (0 <? 3 - 30) with false.
  change (length t `min` (3 + length (Utf16.lit "fox") + 70) <? length t)
    with false.
  cbv iota. rewrite Ht, Hindex. by destruct fuel.
Qed.

Lemma getHighlightedSnippet_span_slips_witness :
  Utf16.getHighlightedSnippet Utf16.sample_toLowerCase 50
    (Utf16.capital_I_dot :: Utf16.lit " fox") (Utf16.lit "fox") 100
  = Some (Utf16.Fragment
            [Utf16.Plain (Utf16.capital_I_dot :: Utf16.lit " f");
             Utf16.Mark 0 (Utf16.lit "ox")]).
Proof.
  apply getHighlightedSnippet_span_slips; [reflexivity | reflexivity | lia].
Defined.

End utf16_facts.
